(** * URL shortener: the alias generator, the validator and the registry

    A shallow embedding of [src/app.js] (class [URLShortener]) and the
    properties of its core: [encodeBase62], [normalizeURL], [isValidURL],
    [validateAndNormalizeURL], the registration step of [shortenURL],
    [redirectToOriginal] and [updateStats].

    Conventions of the embedding.
    - A JavaScript string is a [string]; each [ascii] stands for one code
      unit in the range U+0000..U+00FF.
    - The numbers of the program (the counter [nextId], the [id] and
      [clickCount] of a record, the totals) are non-negative integers and
      are modelled in [N].  JavaScript's numbers are binary64 floats: they
      hold every integer up to 2^53, and above it the multiples of a power
      of two only.  [nextId] is one more than the number of registrations
      ([nextId_session]), so the registry is exact for every session of
      fewer than 2^53 registrations, and it calls [encodeBase62] on such
      numbers only.  The generator has two loops here: [encodeLoop], with
      the exact quotient, which the registry uses, and
      [encodeLoop_binary64], with the quotient as binary64 rounds it, which
      is the loop of the code on any number.  They agree below 62 * 2^48,
      hence on every integer up to 2^53 ([encodeBase62_binary64_exact]),
      and the properties of the generator are stated within that bound.
    - [urlDatabase] is a [Map] keyed by the short code; it is a
      [gmap string urlData].  Only the order of iteration is lost, and the
      operations modelled here do not depend on it.
    - [new Date()] is an input ([now]) of the registration.
    - [new URL(url)] is the platform's parser, not code of the repository:
      it is a parameter [URL_ctor], [true] when the constructor returns and
      [false] when it throws. *)

From stdpp Require Import gmap strings list fin_maps.
From Stdlib Require Import NArith ZArith Ascii String Lia.

Local Open Scope string_scope.
Local Open Scope list_scope.
Local Open Scope nat_scope.

(** ** Strings *)

(** [s[i]]: the one-character string at index [i]; out of range JavaScript
    yields [undefined], which string concatenation prints as "undefined". *)
Definition charAt (s : string) (i : N) : string :=
  match String.get (N.to_nat i) s with
  | Some c => String c ""
  | None => "undefined"
  end.

(** ** Code generator (app.js, lines 3 and 74-83) *)

Definition base62Alphabet : string :=
  "0123456789ABCDEFGHIJKLMNOPQRSTUVWXYZabcdefghijklmnopqrstuvwxyz".

(** The [while (num > 0)] loop of [encodeBase62], with the quotient
    [Math.floor(num / 62)] taken exactly: this is what the code computes
    for [num] below 62 * 2^48, so for every integer up to 2^53
    ([floorDiv62_exact]); beyond, the code's loop is [encodeLoop_binary64].
    [fuel] bounds the number of iterations and [None] means that it was
    not enough. *)
Fixpoint encodeLoop (fuel : nat) (num : N) (encoded : string) : option string :=
  if (0 <? num)%N then
    match fuel with
    | O => None
    | S fuel' =>
        encodeLoop fuel' (num / 62)%N
          (charAt base62Alphabet (num mod 62)%N +:+ encoded)
    end
  else Some encoded.

Definition encodeBase62_fuel (fuel : nat) (num : N) : option string :=
  if (num =? 0)%N then Some (charAt base62Alphabet 0)
  else encodeLoop fuel num "".

(** The loop divides [num] by 62 at each turn, so as many turns as [num]
    has bits are enough ([encodeBase62_fuel_enough] below). *)
Definition encodeBase62 (num : N) : string :=
  default "" (encodeBase62_fuel (S (N.to_nat (N.log2 num))) num).

(** *** The loop on binary64 numbers

    [a / b] rounded to the nearest integer, a tie to the even one. *)
Definition roundHalfEven (a b : N) : N :=
  let q := (a / b)%N in
  let r := (a mod b)%N in
  if (2 * r <? b)%N then q
  else if (b <? 2 * r)%N then (q + 1)%N
  else if N.even q then q else (q + 1)%N.

(** [Math.floor(num / 62)] for an integer [num] that is a binary64
    number.  The quotient [num / 62] lies in the binade of exponent [e];
    binary64 rounds it to the nearest multiple of [2 ^ (e - 52)], a tie
    to the even one, and [Math.floor] takes the integer part.  With
    [s = 52 - e], the multiples are those of [1 / 2 ^ s] when [s] is not
    negative and of [2 ^ (- s)] otherwise. *)
Definition floorDiv62 (num : N) : N :=
  let e := (Z.of_N (N.log2 (num * 64 / 62)) - 6)%Z in
  let s := (52 - e)%Z in
  if (0 <=? s)%Z then (roundHalfEven (num * 2 ^ Z.to_N s) 62 / 2 ^ Z.to_N s)%N
  else (roundHalfEven num (62 * 2 ^ Z.to_N (- s)) * 2 ^ Z.to_N (- s))%N.

(** The integers that are binary64 numbers: 53 significant bits, below
    2^1024. *)
Definition isBinary64 (n : N) : bool :=
  ((n mod 2 ^ (N.log2 n - 52) =? 0) && (n <? 2 ^ 1024))%N.

(** The loop of [encodeBase62] as the code runs it: [num % 62] is exact
    on binary64 numbers, the quotient is [floorDiv62]. *)
Fixpoint encodeLoop_binary64 (fuel : nat) (num : N) (encoded : string)
  : option string :=
  if (0 <? num)%N then
    match fuel with
    | O => None
    | S fuel' =>
        encodeLoop_binary64 fuel' (floorDiv62 num)
          (charAt base62Alphabet (num mod 62)%N +:+ encoded)
    end
  else Some encoded.

Definition encodeBase62_binary64_fuel (fuel : nat) (num : N) : option string :=
  if (num =? 0)%N then Some (charAt base62Alphabet 0)
  else encodeLoop_binary64 fuel num "".

(** The quotient is at most half of [num], so as many turns as [num] has
    bits are enough ([encodeBase62_binary64_fuel_enough] below). *)
Definition encodeBase62_binary64 (num : N) : string :=
  default "" (encodeBase62_binary64_fuel (S (N.to_nat (N.log2 num))) num).

(** ** Whitespace and [String.prototype.trim]

    The code units of [WhiteSpace] and [LineTerminator] below U+0100:
    TAB, LF, VT, FF, CR, SP and NBSP. *)
Definition isWhiteSpace (c : ascii) : bool :=
  let n := N_of_ascii c in
  ((9 <=? n) && (n <=? 13) || (n =? 32) || (n =? 160))%N.

Fixpoint trimStart (s : string) : string :=
  match s with
  | "" => ""
  | String c s' => if isWhiteSpace c then trimStart s' else s
  end.

Fixpoint trimEnd (s : string) : string :=
  match s with
  | "" => ""
  | String c s' =>
      match trimEnd s' with
      | "" => if isWhiteSpace c then "" else String c ""
      | t => String c t
      end
  end.

Definition trim (s : string) : string := trimEnd (trimStart s).

(** ** Regular expressions

    The fragment of the language of JavaScript patterns that the two
    patterns of the program use.  A class is a list of inclusive ranges. *)
Inductive regex : Type :=
  | Eps                                   (* the empty pattern *)
  | Bol                                   (* ^ *)
  | Eol                                   (* $ *)
  | WordB                                 (* \b *)
  | Chr (c : ascii)                       (* a literal character *)
  | Cls (ranges : list (ascii * ascii))   (* [...] *)
  | Cat (r1 r2 : regex)                   (* r1 r2 *)
  | Opt (r : regex)                       (* r? *)
  | Rep (lo hi : nat) (r : regex)         (* r{lo,hi} *)
  | Star (r : regex).                     (* r* *)

(** A position in the subject: the character before it, if any, and what
    is left to read. *)
Record pos : Type := Pos { before : option ascii; rest : string }.

(** [Canonicalize] of a pattern without the [u] flag: with [ignoreCase]
    the upper-case form (a-z, and the accented letters of Latin-1 whose
    upper-case form is in Latin-1 too), the character itself otherwise. *)
Definition canonicalize (ignoreCase : bool) (c : ascii) : ascii :=
  let n := N_of_ascii c in
  if ignoreCase &&
     ((97 <=? n) && (n <=? 122) || (224 <=? n) && (n <=? 254) && negb (n =? 247))%N
  then ascii_of_N (n - 32)
  else c.

Definition inRange (lohi : ascii * ascii) (c : ascii) : bool :=
  ((N_of_ascii lohi.1 <=? N_of_ascii c) && (N_of_ascii c <=? N_of_ascii lohi.2))%N.

(** The candidates that canonicalize like [c]: [c], its upper-case and
    its lower-case form. *)
Definition caseVariants (c : ascii) : list ascii :=
  let n := N_of_ascii c in
  let up := canonicalize true c in
  let low :=
    if ((65 <=? n) && (n <=? 90) || (192 <=? n) && (n <=? 222) && negb (n =? 215))%N
    then ascii_of_N (n + 32) else c in
  [c; up; low].

Definition inClass (ignoreCase : bool) (ranges : list (ascii * ascii)) (c : ascii) : bool :=
  existsb (λ lohi,
    if ignoreCase then existsb (inRange lohi) (caseVariants c) else inRange lohi c) ranges.

(** The characters of [\w]: [A-Za-z0-9_]. *)
Definition isWordChar (c : ascii) : bool :=
  inClass false [("a", "z"); ("A", "Z"); ("0", "9"); ("_", "_")]%char c.

Definition wordBefore (p : pos) : bool :=
  match before p with Some c => isWordChar c | None => false end.

Definition wordAfter (p : pos) : bool :=
  match rest p with String c _ => isWordChar c | "" => false end.

(** [exactly f n ps]: the positions after [n] rounds of [f]. *)
Fixpoint exactly (f : pos → list pos) (n : nat) (ps : list pos) : list pos :=
  match n with
  | O => ps
  | S n' => exactly f n' (ps ≫= f)
  end.

(** [upTo f n ps]: the positions after 0, 1, ..., [n] rounds of [f]. *)
Fixpoint upTo (f : pos → list pos) (n : nat) (ps : list pos) : list pos :=
  match n with
  | O => ps
  | S n' => ps ++ upTo f n' (ps ≫= f)
  end.

(** [run ignoreCase r p]: every position at which a match of [r] that
    starts at [p] can end.  A backtracking matcher finds a match exactly
    when this list is not empty.  A round of [Star] that reads nothing
    ends where it started, so as many rounds as characters are left reach
    every end position. *)
Fixpoint run (ignoreCase : bool) (r : regex) (p : pos) : list pos :=
  match r with
  | Eps => [p]
  | Bol => match before p with None => [p] | Some _ => [] end
  | Eol => match rest p with "" => [p] | String _ _ => [] end
  | WordB => if xorb (wordBefore p) (wordAfter p) then [p] else []
  | Chr c =>
      match rest p with
      | String x s =>
          if Ascii.eqb (canonicalize ignoreCase x) (canonicalize ignoreCase c)
          then [Pos (Some x) s] else []
      | "" => []
      end
  | Cls ranges =>
      match rest p with
      | String x s => if inClass ignoreCase ranges x then [Pos (Some x) s] else []
      | "" => []
      end
  | Cat r1 r2 => run ignoreCase r1 p ≫= run ignoreCase r2
  | Opt r' => run ignoreCase r' p ++ [p]
  | Rep lo hi r' =>
      upTo (run ignoreCase r') (hi - lo) (exactly (run ignoreCase r') lo [p])
  | Star r' => upTo (run ignoreCase r') (String.length (rest p)) [p]
  end.

(** Every position of the subject, from the left. *)
Fixpoint starts (before : option ascii) (s : string) : list pos :=
  Pos before s ::
  match s with
  | "" => []
  | String c s' => starts (Some c) s'
  end.

Definition matchesAt (ignoreCase : bool) (r : regex) (p : pos) : bool :=
  match run ignoreCase r p with [] => false | _ :: _ => true end.

(** [RegExp.prototype.test] of a pattern without the [g] and [y] flags:
    is there a match starting at some position of [s]? *)
Definition test (ignoreCase : bool) (r : regex) (s : string) : bool :=
  existsb (matchesAt ignoreCase r) (starts None s).

(** The concatenation of a list of patterns. *)
Definition cat (rs : list regex) : regex := foldr Cat Eps rs.

(** A literal string. *)
Fixpoint lit (s : string) : list regex :=
  match s with
  | "" => []
  | String c s' => Chr c :: lit s'
  end.

Definition one (c : ascii) : ascii * ascii := (c, c).

(** ** Validator (app.js, lines 4 and 86-115) *)

(** [urlValidationRegex], a pattern with no flag; its parts, in order:
<<
    ^  http  s?  :\/\/  (?:www\.)?  [-a-zA-Z0-9@:%._\+~#=]{1,256}  \.
    [a-zA-Z0-9()]{1,6}  \b  (?: [-a-zA-Z0-9()@:%_\+.~#?&\/=]* )  $
>> *)
Definition hostClass : list (ascii * ascii) :=
  [one "-"; ("a", "z"); ("A", "Z"); ("0", "9"); one "@"; one ":"; one "%";
   one "."; one "_"; one "+"; one "~"; one "#"; one "="]%char.

Definition tldClass : list (ascii * ascii) :=
  [("a", "z"); ("A", "Z"); ("0", "9"); one "("; one ")"]%char.

Definition tailClass : list (ascii * ascii) :=
  [one "-"; ("a", "z"); ("A", "Z"); ("0", "9"); one "("; one ")"; one "@";
   one ":"; one "%"; one "_"; one "+"; one "."; one "~"; one "#"; one "?";
   one "&"; one "/"; one "="]%char.

Definition urlValidationRegex : regex :=
  cat ([Bol] ++ lit "http" ++ [Opt (Chr "s")] ++ lit "://" ++
       [Opt (cat (lit "www."));
        Rep 1 256 (Cls hostClass); Chr "."; Rep 1 6 (Cls tldClass); WordB;
        Star (Cls tailClass); Eol]).

(** The pattern of [normalizeURL], [^https?:\/\/] with the flag [i]. *)
Definition protocolRegex : regex :=
  cat ([Bol] ++ lit "http" ++ [Opt (Chr "s")] ++ lit "://").

(** The [Error]s that [validateAndNormalizeURL] throws, by their message. *)
Inductive Error : Type := Err (message : string).

Definition EmptyInput : Error := Err "Please enter a URL to shorten".
Definition InvalidFormat : Error :=
  Err "Please enter a valid URL (e.g., https://example.com)".

(** [isValidURL]: [false] when [new URL(url)] throws, the verdict of the
    pattern otherwise. *)
Definition isValidURL (URL_ctor : string → bool) (url : string) : bool :=
  if URL_ctor url then test false urlValidationRegex url else false.

Definition normalizeURL (url : string) : string :=
  if negb (test true protocolRegex url) then "https://" +:+ url else url.

Definition validateAndNormalizeURL (URL_ctor : string → bool) (url : string)
  : string + Error :=
  if String.eqb (trim url) "" then inr EmptyInput
  else
    let normalizedUrl := normalizeURL (trim url) in
    if negb (isValidURL URL_ctor normalizedUrl) then inr InvalidFormat
    else inl normalizedUrl.

(** ** Registry (app.js, lines 7-8, 118-161, 235-259 and 288-295) *)

(** A record of [urlDatabase]: [{originalUrl, clickCount, createdAt, id}]. *)
Record urlData : Type := UrlData {
  originalUrl : string;
  clickCount : N;
  createdAt : N;
  id : N
}.

(** The fields of [URLShortener] that hold the registry. *)
Record shortener : Type := Shortener {
  urlDatabase : gmap string urlData;
  nextId : N
}.

(** The constructor: an empty [Map] and [nextId = 1]. *)
Definition initial : shortener := Shortener ∅ 1.

(** The registration of [shortenURL] (lines 134-144), once the input is
    validated: [id = this.nextId++], [shortCode = encodeBase62(id)] and
    [urlDatabase.set(shortCode, {originalUrl, clickCount: 0, createdAt, id})].
    The result is the new state and the short code. *)
Definition register (originalUrl : string) (now : N) (st : shortener)
  : shortener * string :=
  let id := nextId st in
  let shortCode := encodeBase62 id in
  (Shortener
     (<[shortCode := UrlData originalUrl 0 now id]> (urlDatabase st))
     (nextId st + 1),
   shortCode).

(** [shortenURL] on the value of the input field: the error caught when
    the validation throws, the short code of the new record otherwise. *)
Definition shortenURL (URL_ctor : string → bool) (inputValue : string) (now : N)
    (st : shortener) : shortener * (string + Error) :=
  match validateAndNormalizeURL URL_ctor inputValue with
  | inr error => (st, inr error)
  | inl originalUrl =>
      let '(st', shortCode) := register originalUrl now st in (st', inl shortCode)
  end.

(** [urlData.clickCount++] on the record stored under a key. *)
Definition click (data : urlData) : urlData :=
  UrlData (originalUrl data) (clickCount data + 1) (createdAt data) (id data).

(** [redirectToOriginal(shortCode)]: when the [Map] has a record under
    [shortCode], its click count is incremented in place and the record
    is the one whose [originalUrl] is opened ([Some]); otherwise the alert
    "Short URL not found" ([None]) and nothing else. *)
Definition redirectToOriginal (shortCode : string) (st : shortener)
  : shortener * option urlData :=
  match urlDatabase st !! shortCode with
  | Some urlData =>
      let urlData' := click urlData in
      (Shortener (<[shortCode := urlData']> (urlDatabase st)) (nextId st),
       Some urlData')
  | None => (st, None)
  end.

(** What [updateStats] displays: [urlDatabase.size] and the sum of
    [clickCount] over [urlDatabase.values()], computed by [reduce] from 0. *)
Record stats : Type := Stats { totalUrls : N; totalClicks : N }.

Definition totalClickCount (values : list urlData) : N :=
  foldl (λ sum data, (sum + clickCount data)%N) 0%N values.

Definition updateStats (st : shortener) : stats :=
  Stats (N.of_nat (size (urlDatabase st)))
        (totalClickCount ((map_to_list (urlDatabase st)).*2)).

(** *** Sessions: sequences of registry operations *)

Inductive operation : Type :=
  | Register (originalUrl : string) (now : N)
  | Resolve (shortCode : string).

Definition step (st : shortener) (o : operation) : shortener :=
  match o with
  | Register originalUrl now => (register originalUrl now st).1
  | Resolve shortCode => (redirectToOriginal shortCode st).1
  end.

Definition session (ops : list operation) : shortener := foldl step initial ops.

(** The states a session can reach from the initial one. *)
Definition reachable (st : shortener) : Prop := ∃ ops, st = session ops.

(** Whether an operation, run in state [st], registers a record or
    visits one. *)
Definition registers (st : shortener) (o : operation) : bool :=
  match o with Register _ _ => true | Resolve _ => false end.

Definition visits (st : shortener) (o : operation) : bool :=
  match o with
  | Register _ _ => false
  | Resolve shortCode => bool_decide (is_Some (urlDatabase st !! shortCode))
  end.

(** The number of operations of a session, run from [st], that satisfy
    [counted] in the state they run in. *)
Fixpoint tally (counted : shortener → operation → bool) (st : shortener)
    (ops : list operation) : N :=
  match ops with
  | [] => 0
  | o :: ops' =>
      ((if counted st o then 1 else 0) + tally counted (step st o) ops')%N
  end.

(** ** Notions used to state the properties *)

(** *** Codes as numerals *)

(** The index of [c] in [alphabet], counted from [i]. *)
Fixpoint indexFrom (i : N) (c : ascii) (alphabet : string) : option N :=
  match alphabet with
  | "" => None
  | String x alphabet' =>
      if Ascii.eqb x c then Some i else indexFrom (i + 1) c alphabet'
  end.

(** The value of a base-62 digit (0 for a character that is not one). *)
Definition digitValue (c : ascii) : N := default 0%N (indexFrom 0 c base62Alphabet).

Definition isDigit62 (c : ascii) : bool :=
  match indexFrom 0 c base62Alphabet with Some _ => true | None => false end.

(** The number that a code denotes, most significant digit first. *)
Fixpoint decodeFrom (acc : N) (code : string) : N :=
  match code with
  | "" => acc
  | String c code' => decodeFrom (acc * 62 + digitValue c) code'
  end.

Definition decodeBase62 (code : string) : N := decodeFrom 0 code.

Fixpoint allChars (P : ascii → bool) (s : string) : bool :=
  match s with
  | "" => true
  | String c s' => P c && allChars P s'
  end.



(** *** What a pattern reads *)

(** The characters that a match of [r], case-sensitive, can read. *)
Fixpoint reads (r : regex) (c : ascii) : bool :=
  match r with
  | Eps | Bol | Eol | WordB => false
  | Chr x => Ascii.eqb c x
  | Cls ranges => inClass false ranges c
  | Cat r1 r2 => reads r1 c || reads r2 c
  | Opt r' | Rep _ _ r' | Star r' => reads r' c
  end.

(** From [p] to [q] the subject has characters of [P] only. *)
Definition span (P : ascii → bool) (p q : pos) : Prop :=
  ∃ w, rest p = w +:+ rest q ∧ allChars P w = true.

(** Reading the literal [w] from [p]: the position after it. *)
Fixpoint eat (ignoreCase : bool) (w : string) (p : pos) : option pos :=
  match w with
  | "" => Some p
  | String c w' =>
      match rest p with
      | String x s =>
          if Ascii.eqb (canonicalize ignoreCase x) (canonicalize ignoreCase c)
          then eat ignoreCase w' (Pos (Some x) s) else None
      | "" => None
      end
  end.

(** *** Prefixes in any letter case *)

Definition lowerASCII (c : ascii) : ascii :=
  let n := N_of_ascii c in
  if ((65 <=? n) && (n <=? 90))%N then ascii_of_N (n + 32) else c.

Fixpoint startsWithCI (w s : string) : bool :=
  match w, s with
  | "", _ => true
  | String c w', String x s' =>
      Ascii.eqb (lowerASCII x) (lowerASCII c) && startsWithCI w' s'
  | String _ _, "" => false
  end.

(** A pattern character that the flag [i] compares as [lowerASCII] does. *)
Definition plainChar (c : ascii) : Prop :=
  ∀ x, Ascii.eqb (canonicalize true x) (canonicalize true c) =
       Ascii.eqb (lowerASCII x) (lowerASCII c).

(** Does [url] start with the scheme, in lower case or in any case? *)
Definition hasScheme (url : string) : bool :=
  String.prefix "http://" url || String.prefix "https://" url.

Definition hasSchemeCI (url : string) : bool :=
  startsWithCI "http://" url || startsWithCI "https://" url.

(** *** The conditions of the specification's validator, in its words *)

Definition isAlphanumeric (c : ascii) : bool :=
  inClass false [("a", "z"); ("A", "Z"); ("0", "9")]%char c.

(** Alphanumerics and the characters listed by the specification. *)
Definition specUrlChar (c : ascii) : bool :=
  isAlphanumeric c ||
  existsb (Ascii.eqb c)
    (list_ascii_of_string "-_.~:/?#[]@!$&'()*+,;=%").

Fixpoint takeUntil (stop : ascii → bool) (s : string) : string :=
  match s with
  | "" => ""
  | String c s' => if stop c then "" else String c (takeUntil stop s')
  end.

(** What follows the last occurrence of [c] in [s] ([s] when there is none). *)
Fixpoint afterLast (c : ascii) (s : string) : string :=
  match s with
  | "" => ""
  | String x s' =>
      if existsb (Ascii.eqb c) (list_ascii_of_string s') then afterLast c s'
      else if Ascii.eqb x c then s' else s
  end.

(** The host of an absolute URL: after "://", up to the path, the query or
    the fragment, without the credentials and the port. *)
Definition hostOf (url : string) : string :=
  match String.index 0 "://" url with
  | None => ""
  | Some i =>
      let afterScheme := String.substring (i + 3) (String.length url - (i + 3)) url in
      let authority :=
        takeUntil (λ c, existsb (Ascii.eqb c) (list_ascii_of_string "/?#")) afterScheme in
      takeUntil (Ascii.eqb ":") (afterLast "@" authority)
  end.

(** Two non-empty labels with a dot between them. *)
Fixpoint hasLabelPair (inLabel : bool) (host : string) : bool :=
  match host with
  | "" => false
  | String c host' =>
      if Ascii.eqb c "." then
        inLabel && match host' with String d _ => negb (Ascii.eqb d ".") | "" => false end
        || hasLabelPair false host'
      else hasLabelPair true host'
  end.

(** The specification's reasons to fail with [InvalidFormat]. *)
Definition specInvalidFormat (URL_ctor : string → bool) (url : string) : bool :=
  negb (URL_ctor url) || negb (hasLabelPair false (hostOf url)) ||
  negb (allChars specUrlChar url).

(** *** A platform to run the validator on examples

    A stand-in for [new URL]: it accepts the scheme in any letter case,
    then a host of letters, digits, hyphens and dots, then anything that
    is not a space. *)
Definition sampleURL : string → bool :=
  test true
    (cat ([Bol] ++ lit "http" ++ [Opt (Chr "s")] ++ lit "://" ++
          [Rep 1 255 (Cls [("a", "z"); ("0", "9"); one "-"; one "."]%char);
           Opt (Cat (Cls [one "/"; one "?"; one "#"]%char)
                    (Star (Cls [("!", "~")]%char)));
           Eol])).

(** *** Repeated visits *)

(** The registry after [n] calls of [redirectToOriginal shortCode]. *)
Fixpoint redirects (n : nat) (shortCode : string) (st : shortener) : shortener :=
  match n with
  | O => st
  | S n' => (redirectToOriginal shortCode (redirects n' shortCode st)).1
  end.

(** *** The invariant of the registry *)

(** Every record is stored under the code of its [id], the [id]s are the
    numbers from 1 to [nextId - 1], and each of them has its record. *)
Definition wellFormed (st : shortener) : Prop :=
  (1 ≤ nextId st)%N ∧
  (∀ shortCode data, urlDatabase st !! shortCode = Some data →
     shortCode = encodeBase62 (id data) ∧ (1 ≤ id data < nextId st)%N) ∧
  (∀ n, (1 ≤ n < nextId st)%N →
     ∃ data, urlDatabase st !! encodeBase62 n = Some data ∧ id data = n).

(** ** The rest of the page's logic

    *** Short URLs and hashes (app.js, lines 55-59, 228-233 and 261-285) *)

(** [s.includes(needle)]. *)
Fixpoint includes (needle s : string) : bool :=
  String.prefix needle s ||
  match s with
  | "" => false
  | String _ s' => includes needle s'
  end.

(** [s.split(sep)] for a separator of one character. *)
Fixpoint split (sep : ascii) (s : string) : list string :=
  match s with
  | "" => [""]
  | String c s' =>
      if Ascii.eqb c sep then "" :: split sep s'
      else
        match split sep s' with
        | part :: parts => String c part :: parts
        | [] => [String c ""]
        end
  end.

(** [extractShortCode(url)]; [None] stands for [undefined], what an index
    out of the array of [split] would give. *)
Definition extractShortCode (url : string) : option string :=
  if includes "#" url then split "#" url !! 1
  else last (split "/" url).

(** The short URL that [shortenURL] and [createHistoryRow] build
    (lines 136 and 331); [origin] is [window.location.origin]. *)
Definition shortUrlOf (origin shortCode : string) : string :=
  origin +:+ "/#" +:+ shortCode.

(** The listener of the test button (lines 55-59), on the value of
    [shortenedUrlDisplay]; [Map.get(undefined)] finds nothing. *)
Definition testButton (shortenedUrlDisplay : string) (st : shortener)
  : shortener * option urlData :=
  match extractShortCode shortenedUrlDisplay with
  | Some shortCode => redirectToOriginal shortCode st
  | None => (st, None)
  end.

(** [s.substring(1)]. *)
Definition dropFirst (s : string) : string :=
  match s with
  | "" => ""
  | String _ s' => s'
  end.

(** [handleHashChange], on [window.location.hash]; it is also what the
    timer of [handleInitialRoute] runs.  The result is [None] when
    [redirectToOriginal] is not called, and its result otherwise. *)
Definition handleHashChange (hash : string) (st : shortener)
  : shortener * option (option urlData) :=
  if negb (String.eqb hash "") && (1 <? String.length hash) then
    let shortCode := dropFirst hash in
    match urlDatabase st !! shortCode with
    | Some _ =>
        let '(st', result) := redirectToOriginal shortCode st in (st', Some result)
    | None => (st, None)
    end
  else (st, None).

(** *** What the user does on the page *)

Inductive event : Type :=
  | Submit (inputValue : string) (now : N)   (* the form, [shortenURL] *)
  | TestButton (shortenedUrlDisplay : string) (* the test button of the result *)
  | TestRow (shortCode : string)              (* a test button of the history *)
  | HashChange (hash : string).               (* a change of the hash *)

Definition react (URL_ctor : string → bool) (st : shortener) (e : event) : shortener :=
  match e with
  | Submit inputValue now => (shortenURL URL_ctor inputValue now st).1
  | TestButton shortenedUrlDisplay => (testButton shortenedUrlDisplay st).1
  | TestRow shortCode => (redirectToOriginal shortCode st).1
  | HashChange hash => (handleHashChange hash st).1
  end.

Definition page (URL_ctor : string → bool) (events : list event) : shortener :=
  foldl (react URL_ctor) initial events.

(** The registry operations that an event amounts to in state [st]. *)
Definition operationsOf (URL_ctor : string → bool) (st : shortener) (e : event)
  : list operation :=
  match e with
  | Submit inputValue now =>
      match validateAndNormalizeURL URL_ctor inputValue with
      | inl url => [Register url now]
      | inr _ => []
      end
  | TestButton shortenedUrlDisplay =>
      match extractShortCode shortenedUrlDisplay with
      | Some shortCode => [Resolve shortCode]
      | None => []
      end
  | TestRow shortCode => [Resolve shortCode]
  | HashChange hash =>
      if negb (String.eqb hash "") && (1 <? String.length hash)
      then [Resolve (dropFirst hash)] else []
  end.

(** Is [e] a submission that the validation accepts? *)
Definition isAccepted (URL_ctor : string → bool) (e : event) : bool :=
  match e with
  | Submit inputValue _ =>
      match validateAndNormalizeURL URL_ctor inputValue with
      | inl _ => true
      | inr _ => false
      end
  | _ => false
  end.

(** The number of accepted submissions of [events]. *)
Fixpoint accepted (URL_ctor : string → bool) (events : list event) : N :=
  match events with
  | [] => 0
  | e :: events' =>
      ((if isAccepted URL_ctor e then 1 else 0) + accepted URL_ctor events')%N
  end.

(** *** [truncateUrl] (app.js, lines 371-393) *)

(** What [truncateUrl] reads of [new URL(url)]. *)
Record urlParts : Type := UrlParts {
  hostname : string;
  pathname : string;
  search : string
}.

(** [s.substring(0, n)]: a negative [n] counts as 0, one beyond the
    length as the length. *)
Definition substring0 (n : Z) (s : string) : string :=
  String.substring 0 (Z.to_nat n) s.

Definition lengthZ (s : string) : Z := Z.of_nat (String.length s).

(** [URL_parse url] is [None] when [new URL(url)] throws. *)
Definition truncateUrl (URL_parse : string → option urlParts)
    (url : string) (maxLength : Z) : string :=
  if (lengthZ url <=? maxLength)%Z then url
  else
    match URL_parse url with
    | Some urlObj =>
        let domain := hostname urlObj in
        let path := pathname urlObj +:+ search urlObj in
        if (maxLength <=? lengthZ domain + 10)%Z then
          substring0 (maxLength - 3) domain +:+ "..."
        else
          let availableLength := (maxLength - lengthZ domain - 6)%Z in
          if (availableLength <? lengthZ path)%Z then
            "https://" +:+ domain +:+ substring0 availableLength path +:+ "..."
          else url
    | None => substring0 (maxLength - 3) url +:+ "..."
    end.

(** *** Notions for the properties of the page *)

(** [st'] keeps the records of [st]: the same destination, time and
    [id] under the same code, and no fewer clicks. *)
Definition keeps (st st' : shortener) : Prop :=
  ∀ shortCode data, urlDatabase st !! shortCode = Some data →
    ∃ data', urlDatabase st' !! shortCode = Some data' ∧
      originalUrl data' = originalUrl data ∧
      createdAt data' = createdAt data ∧
      id data' = id data ∧
      (clickCount data ≤ clickCount data')%N.

(** Every stored destination passed [isValidURL]. *)
Definition allValid (URL_ctor : string → bool) (st : shortener) : Prop :=
  ∀ shortCode data, urlDatabase st !! shortCode = Some data →
    isValidURL URL_ctor (originalUrl data) = true.

(** [s] has no character [sep]. *)
Definition without (sep : ascii) (s : string) : bool :=
  allChars (λ x, negb (Ascii.eqb x sep)) s.

(** The characters that end an attribute or start a tag in HTML: the
    double quote, the apostrophe and the angle brackets. *)
Definition htmlDelimiters : list ascii :=
  [ascii_of_N 34; ascii_of_N 39; ascii_of_N 60; ascii_of_N 62].

(** No character of [s] is whitespace. *)
Definition noWhiteSpace (s : string) : bool :=
  allChars (λ c, negb (isWhiteSpace c)) s.

(** [s] does not start with whitespace. *)
Definition startsClean (s : string) : Prop :=
  match s with
  | "" => True
  | String c _ => isWhiteSpace c = false
  end.

(** * Properties

    ** Termination of the loop of [encodeBase62] *)

Lemma encodeLoop_terminates (fuel : nat) :
  ∀ (num : N) (encoded : string),
    (num < 2 ^ N.of_nat fuel)%N → is_Some (encodeLoop fuel num encoded).
Proof.
  induction fuel as [|fuel IH]; intros num encoded Hlt; simpl.
  - change (2 ^ N.of_nat 0)%N with 1%N in Hlt.
    replace num with 0%N by lia. simpl. eauto.
  - destruct (0 <? num)%N eqn:Hpos; [|eauto].
    apply IH. rewrite Nat2N.inj_succ, N.pow_succ_r' in Hlt.
    apply N.Div0.div_lt_upper_bound.
    assert (0 < 2 ^ N.of_nat fuel)%N by (apply N.neq_0_lt_0, N.pow_nonzero; lia).
    lia.
Qed.

Lemma encodeLoop_more_fuel (fuel fuel' : nat) :
  ∀ (num : N) (encoded s : string),
    (fuel ≤ fuel')%nat → encodeLoop fuel num encoded = Some s →
    encodeLoop fuel' num encoded = Some s.
Proof.
  revert fuel'. induction fuel as [|fuel IH]; intros fuel' num encoded s Hle; simpl.
  - destruct (0 <? num)%N eqn:Hpos; [discriminate|].
    intros [= <-]. destruct fuel'; simpl; by rewrite Hpos.
  - destruct (0 <? num)%N eqn:Hpos.
    + destruct fuel' as [|fuel']; [lia|]. simpl. rewrite Hpos.
      apply IH. lia.
    + intros [= <-]. destruct fuel'; simpl; by rewrite Hpos.
Qed.

Lemma log2_fuel_bound (num : N) : (num < 2 ^ N.of_nat (S (N.to_nat (N.log2 num))))%N.
Proof.
  rewrite Nat2N.inj_succ, N2Nat.id.
  destruct (N.eq_dec num 0) as [->|Hne]; [reflexivity|].
  apply N.log2_spec. lia.
Qed.

(** With at least as many turns as [num] has bits, the loop returns, and
    what it returns is [encodeBase62 num]. *)
Lemma encodeBase62_fuel_enough (fuel : nat) (num : N) :
  (S (N.to_nat (N.log2 num)) ≤ fuel)%nat →
  encodeBase62_fuel fuel num = Some (encodeBase62 num).
Proof.
  intros Hle. unfold encodeBase62, encodeBase62_fuel.
  destruct (num =? 0)%N; [done|].
  destruct (encodeLoop_terminates _ num "" (log2_fuel_bound num)) as [s Hs].
  rewrite Hs. simpl. eapply encodeLoop_more_fuel; eauto.
Qed.

Example encodeBase62_1 : encodeBase62 1 = "1".
Proof. reflexivity. Qed.

Example encodeBase62_big : encodeBase62 9007199254740991 = "fFgnDxSe7".
Proof. vm_compute. reflexivity. Qed.

(** ** Strings *)

Lemma append_cons (c : ascii) (s t : string) : String c s +:+ t = String c (s +:+ t).
Proof. reflexivity. Qed.

Lemma append_nil_l (s : string) : "" +:+ s = s.
Proof. reflexivity. Qed.

Lemma append_nil_r (s : string) : s +:+ "" = s.
Proof. induction s as [|c s IH]; [done|]. by rewrite append_cons, IH. Qed.

Lemma append_assoc (s t u : string) : (s +:+ t) +:+ u = s +:+ (t +:+ u).
Proof. induction s as [|c s IH]; [done|]. by rewrite !append_cons, IH. Qed.

Lemma length_append (s t : string) :
  String.length (s +:+ t) = (String.length s + String.length t)%nat.
Proof. induction s as [|c s IH]; [done|]. rewrite append_cons. simpl. by rewrite IH. Qed.

Lemma allChars_app (P : ascii → bool) (s t : string) :
  allChars P (s +:+ t) = allChars P s && allChars P t.
Proof.
  induction s as [|c s IH]; [done|].
  rewrite append_cons. simpl. by rewrite IH, andb_assoc.
Qed.

(** ** The alphabet *)

Lemma indexFrom_In (c : ascii) (alphabet : string) :
  ∀ i n, indexFrom i c alphabet = Some n → In c (list_ascii_of_string alphabet).
Proof.
  induction alphabet as [|x alphabet IH]; intros i n; simpl; [done|].
  destruct (Ascii.eqb_spec x c) as [->|_]; [auto|]. intros H. right. eauto.
Qed.

Lemma isDigit62_In (c : ascii) :
  isDigit62 c = true → In c (list_ascii_of_string base62Alphabet).
Proof.
  unfold isDigit62. destruct (indexFrom 0 c base62Alphabet) eqn:H; [|done].
  intros _. eapply indexFrom_In, H.
Qed.

(** The digits are in the order of their code units, and no two of them
    have the same value. *)
Lemma digit_pairs (c d : ascii) :
  isDigit62 c = true → isDigit62 d = true →
  (digitValue c < 62)%N ∧
  ((digitValue c < digitValue d)%N → (N_of_ascii c < N_of_ascii d)%N) ∧
  (digitValue c = digitValue d → c = d).
Proof.
  intros Hc%isDigit62_In Hd%isDigit62_In.
  assert (forallb (λ c, forallb (λ d,
            (digitValue c <? 62)%N &&
            implb (digitValue c <? digitValue d)%N (N_of_ascii c <? N_of_ascii d)%N &&
            implb (digitValue c =? digitValue d)%N (Ascii.eqb c d))
            (list_ascii_of_string base62Alphabet))
            (list_ascii_of_string base62Alphabet) = true) as Hall
    by (vm_compute; reflexivity).
  rewrite forallb_forall in Hall. specialize (Hall c Hc).
  rewrite forallb_forall in Hall. specialize (Hall d Hd).
  apply andb_prop in Hall as [[H1 H2]%andb_prop H3].
  apply N.ltb_lt in H1. split; [done|]. split.
  - intros Hlt%N.ltb_lt. rewrite Hlt in H2. by apply N.ltb_lt in H2.
  - intros Heq%N.eqb_eq. rewrite Heq in H3. by apply Ascii.eqb_eq in H3.
Qed.

(** The character at an index below 62 is the digit of that value. *)
Lemma charAt_digit (i : N) :
  (i < 62)%N →
  ∃ c, charAt base62Alphabet i = String c "" ∧ isDigit62 c = true ∧ digitValue c = i.
Proof.
  intros Hi.
  assert (forallb (λ k,
            match String.get k base62Alphabet with
            | Some c => isDigit62 c && (digitValue c =? N.of_nat k)%N
            | None => false
            end) (seq 0 62) = true) as Hall by (vm_compute; reflexivity).
  rewrite forallb_forall in Hall.
  specialize (Hall (N.to_nat i)).
  unfold charAt.
  destruct (String.get (N.to_nat i) base62Alphabet) as [c|].
  - exists c. split; [done|].
    assert (In (N.to_nat i) (seq 0 62)) as Hin by (apply in_seq; lia).
    apply Hall in Hin. apply andb_prop in Hin as [H1 H2%N.eqb_eq]. split; [done|]. lia.
  - assert (In (N.to_nat i) (seq 0 62)) as Hin by (apply in_seq; lia).
    by apply Hall in Hin.
Qed.

(** ** Decoding *)

Lemma decodeFrom_app (code code' : string) :
  ∀ acc, decodeFrom acc (code +:+ code') = decodeFrom (decodeFrom acc code) code'.
Proof.
  induction code as [|c code IH]; intros acc; [done|].
  rewrite append_cons. simpl. apply IH.
Qed.

Lemma decodeFrom_acc (code : string) :
  ∀ acc, decodeFrom acc code =
         (acc * 62 ^ N.of_nat (String.length code) + decodeBase62 code)%N.
Proof.
  unfold decodeBase62.
  induction code as [|c code IH]; intros acc.
  - simpl. lia.
  - cbn [decodeFrom String.length]. rewrite IH, (IH (0 * 62 + _)%N).
    rewrite Nat2N.inj_succ, N.pow_succ_r'. lia.
Qed.

Lemma decodeBase62_cons (c : ascii) (code : string) :
  decodeBase62 (String c code) =
  (digitValue c * 62 ^ N.of_nat (String.length code) + decodeBase62 code)%N.
Proof. unfold decodeBase62 at 1. simpl. apply decodeFrom_acc. Qed.

Lemma decodeBase62_bound (code : string) :
  allChars isDigit62 code = true →
  (decodeBase62 code < 62 ^ N.of_nat (String.length code))%N.
Proof.
  induction code as [|c code IH]; [by (intros _; vm_compute)|].
  cbn [allChars]. intros [Hc Hcode]%andb_prop.
  rewrite decodeBase62_cons. cbn [String.length].
  rewrite Nat2N.inj_succ, N.pow_succ_r'.
  destruct (digit_pairs c c Hc Hc) as [Hlt _]. specialize (IH Hcode). nia.
Qed.

(** A code is canonical when its characters are digits and, unless it is
    the single digit 0, it does not start with the digit 0. *)

(** ** The loop of [encodeBase62] *)

(** What the loop puts in front of [encoded]: the digits of [num], most
    significant first, none when [num] is 0 and no leading 0 otherwise. *)
Lemma encodeLoop_digits (fuel : nat) :
  ∀ (num : N) (encoded s : string),
    encodeLoop fuel num encoded = Some s →
    ∃ digits, s = digits +:+ encoded ∧
      allChars isDigit62 digits = true ∧
      decodeBase62 digits = num ∧
      match digits with
      | "" => num = 0%N
      | String c _ => digitValue c ≠ 0%N
      end.
Proof.
  induction fuel as [|fuel IH]; intros num encoded s; simpl.
  - destruct (0 <? num)%N eqn:Hpos; [done|]. intros [= <-].
    apply N.ltb_ge in Hpos. exists "". repeat split; [|lia]. vm_compute. lia.
  - destruct (0 <? num)%N eqn:Hpos.
    + apply N.ltb_lt in Hpos. intros Hs.
      destruct (IH _ _ _ Hs) as (digits & -> & Hall & Hval & Hhead).
      destruct (charAt_digit (num mod 62)) as (c & Hc & Hdig & Hcv).
      { apply N.mod_lt. lia. }
      exists (digits +:+ String c ""). rewrite Hc, append_assoc. split; [done|].
      split; [|split].
      * rewrite allChars_app, Hall. simpl. by rewrite Hdig.
      * unfold decodeBase62 in *. rewrite decodeFrom_app, Hval. simpl.
        rewrite Hcv. pose proof (N.div_mod num 62). lia.
      * destruct digits as [|d digits]; [|done].
        rewrite append_nil_l. rewrite Hcv.
        assert (num / 62 = 0)%N as Hq by done.
        pose proof (N.div_mod num 62). lia.
    + intros [= <-]. apply N.ltb_ge in Hpos.
      exists "". repeat split; [|lia]. vm_compute. lia.
Qed.

(** [encodeBase62 num] is the canonical numeral of [num]. *)
Lemma encodeBase62_canonical (num : N) :
  allChars isDigit62 (encodeBase62 num) = true ∧
  decodeBase62 (encodeBase62 num) = num ∧
  ∃ c code, encodeBase62 num = String c code ∧
            (digitValue c = 0%N → code = "" ∧ num = 0%N).
Proof.
  pose proof (encodeBase62_fuel_enough _ num (le_n _)) as Hfuel.
  unfold encodeBase62_fuel in Hfuel.
  destruct (num =? 0)%N eqn:Hz.
  - apply N.eqb_eq in Hz as ->. clear Hfuel.
    change (encodeBase62 0) with "0".
    repeat split. exists "0"%char, "". repeat split.
  - apply N.eqb_neq in Hz.
    apply encodeLoop_digits in Hfuel as (digits & Heq & Hall & Hval & Hhead).
    rewrite append_nil_r in Heq. rewrite Heq. split; [done|]. split; [done|].
    destruct digits as [|c code]; [done|]. exists c, code. split; [done|].
    intros ?. done.
Qed.

Lemma encodeBase62_decode (num : N) : decodeBase62 (encodeBase62 num) = num.
Proof. apply encodeBase62_canonical. Qed.

Lemma encodeBase62_inj (n1 n2 : N) : encodeBase62 n1 = encodeBase62 n2 → n1 = n2.
Proof.
  intros H. rewrite <- (encodeBase62_decode n1), <- (encodeBase62_decode n2).
  by rewrite H.
Qed.

(** ** Order *)




(** ** The registry *)

Lemma wellFormed_initial : wellFormed initial.
Proof.
  split; [done|]. split.
  - intros shortCode data. simpl. by rewrite lookup_empty.
  - intros n. simpl. lia.
Qed.

(** In a well-formed registry the code of [nextId] is free. *)
Lemma wellFormed_fresh (st : shortener) :
  wellFormed st → urlDatabase st !! encodeBase62 (nextId st) = None.
Proof.
  intros (_ & Hkeys & _).
  destruct (urlDatabase st !! encodeBase62 (nextId st)) as [data|] eqn:Hlook; [|done].
  destruct (Hkeys _ _ Hlook) as [Heq%encodeBase62_inj Hid]. lia.
Qed.

Lemma wellFormed_register (originalUrl : string) (now : N) (st : shortener) :
  wellFormed st → wellFormed (register originalUrl now st).1.
Proof.
  intros Hwf. pose proof (wellFormed_fresh st Hwf) as Hfresh.
  destruct Hwf as (Hpos & Hkeys & Hids). unfold register, wellFormed.
  cbn [fst nextId urlDatabase].
  split; [lia|]. split.
  - intros shortCode data.
    destruct (decide (shortCode = encodeBase62 (nextId st))) as [->|Hne].
    + rewrite lookup_insert_eq. intros [= <-]. simpl. split; [done|lia].
    + rewrite lookup_insert_ne by done. intros Hlook.
      destruct (Hkeys _ _ Hlook). split; [done|lia].
  - intros n Hn. destruct (decide (n = nextId st)) as [->|Hne].
    + rewrite lookup_insert_eq. eauto.
    + rewrite lookup_insert_ne by (intros Heq%encodeBase62_inj; done).
      apply Hids. lia.
Qed.

Lemma wellFormed_redirect (shortCode : string) (st : shortener) :
  wellFormed st → wellFormed (redirectToOriginal shortCode st).1.
Proof.
  intros (Hpos & Hkeys & Hids). unfold redirectToOriginal.
  destruct (urlDatabase st !! shortCode) as [data|] eqn:Hlook; [|done].
  destruct (Hkeys _ _ Hlook) as [Hcode Hid]. unfold wellFormed.
  cbn [fst nextId urlDatabase].
  split; [done|]. split.
  - intros code data'. destruct (decide (code = shortCode)) as [->|Hne].
    + rewrite lookup_insert_eq. by intros [= <-].
    + rewrite lookup_insert_ne by done. apply Hkeys.
  - intros n Hn. destruct (decide (encodeBase62 n = shortCode)) as [Heq|Hne].
    + rewrite Heq, lookup_insert_eq. eexists. split; [done|]. simpl.
      apply encodeBase62_inj. congruence.
    + rewrite lookup_insert_ne by done. by apply Hids.
Qed.

Lemma wellFormed_step (st : shortener) (o : operation) :
  wellFormed st → wellFormed (step st o).
Proof.
  intros Hwf. destruct o; cbn [step];
    [by apply wellFormed_register|by apply wellFormed_redirect].
Qed.

Lemma session_snoc (ops : list operation) (o : operation) :
  session (ops ++ [o]) = step (session ops) o.
Proof. unfold session. by rewrite foldl_snoc. Qed.

Lemma reachable_wellFormed (st : shortener) : reachable st → wellFormed st.
Proof.
  intros [ops ->]. induction ops as [|o ops IH] using rev_ind.
  - apply wellFormed_initial.
  - rewrite session_snoc. by apply wellFormed_step.
Qed.

Lemma reachable_step (st : shortener) (o : operation) :
  reachable st → reachable (step st o).
Proof. intros [ops ->]. exists (ops ++ [o]). by rewrite session_snoc. Qed.

(** ** The totals *)

Lemma totalClickCount_from (values : list urlData) :
  ∀ sum, foldl (λ sum data, (sum + clickCount data)%N) sum values =
         (sum + totalClickCount values)%N.
Proof.
  unfold totalClickCount.
  induction values as [|data values IH]; intros sum; simpl; [lia|].
  rewrite IH, (IH (0 + _)%N). lia.
Qed.

Lemma totalClickCount_cons (data : urlData) (values : list urlData) :
  totalClickCount (data :: values) = (clickCount data + totalClickCount values)%N.
Proof. unfold totalClickCount at 1. simpl. apply totalClickCount_from. Qed.

Lemma totalClickCount_perm (values values' : list urlData) :
  values ≡ₚ values' → totalClickCount values = totalClickCount values'.
Proof.
  induction 1 as [|data ?? _ IH|data data' ?|??? _ IH1 _ IH2];
    rewrite ?totalClickCount_cons; [done|by rewrite IH|lia|congruence].
Qed.

(** A new key adds its record to the totals. *)
Lemma stats_insert_fresh (db : gmap string urlData) (nextId : N)
    (shortCode : string) (data : urlData) :
  db !! shortCode = None →
  updateStats (Shortener (<[shortCode := data]> db) nextId) =
  Stats (totalUrls (updateStats (Shortener db nextId)) + 1)
        (totalClicks (updateStats (Shortener db nextId)) + clickCount data).
Proof.
  intros Hfresh. unfold updateStats. simpl. f_equal.
  - rewrite map_size_insert_None by done. lia.
  - rewrite (totalClickCount_perm _ (data :: (map_to_list db).*2)).
    + rewrite totalClickCount_cons. lia.
    + by rewrite map_to_list_insert.
Qed.

(** A click on a stored record adds one to the total of the clicks. *)
Lemma stats_insert_click (db : gmap string urlData) (nextId : N)
    (shortCode : string) (data : urlData) :
  db !! shortCode = Some data →
  updateStats (Shortener (<[shortCode := click data]> db) nextId) =
  Stats (totalUrls (updateStats (Shortener db nextId)))
        (totalClicks (updateStats (Shortener db nextId)) + 1).
Proof.
  intros Hlook. unfold updateStats. simpl. f_equal.
  - rewrite map_size_insert_Some; eauto.
  - rewrite <- (insert_delete_eq db).
    rewrite (totalClickCount_perm _ (click data :: (map_to_list (delete shortCode db)).*2)).
    + rewrite (totalClickCount_perm ((map_to_list db).*2)
                 (data :: (map_to_list (delete shortCode db)).*2)).
      * rewrite !totalClickCount_cons. simpl. lia.
      * by rewrite <- (map_to_list_delete db shortCode data).
    + rewrite map_to_list_insert; [done|]. apply lookup_delete_eq.
Qed.

Lemma stats_step (st : shortener) (o : operation) :
  wellFormed st →
  updateStats (step st o) =
  Stats (totalUrls (updateStats st) + if registers st o then 1 else 0)
        (totalClicks (updateStats st) + if visits st o then 1 else 0).
Proof.
  intros Hwf. destruct st as [db next].
  destruct o as [originalUrl now|shortCode]; cbn [step registers visits].
  - unfold register. cbn [fst urlDatabase nextId].
    rewrite stats_insert_fresh by apply (wellFormed_fresh _ Hwf).
    f_equal; cbn [clickCount]; lia.
  - unfold redirectToOriginal. cbn [urlDatabase nextId].
    destruct (db !! shortCode) as [data|] eqn:Hlook; cbn [fst].
    + rewrite bool_decide_eq_true_2 by eauto.
      rewrite (stats_insert_click _ _ _ _ Hlook). f_equal; lia.
    + rewrite bool_decide_eq_false_2 by (intros [? ?]; done).
      destruct (updateStats _) as [urls clicks]. cbn [totalUrls totalClicks]. f_equal; lia.
Qed.

Lemma stats_session_from (ops : list operation) :
  ∀ st, wellFormed st →
    updateStats (foldl step st ops) =
    Stats (totalUrls (updateStats st) + tally registers st ops)
          (totalClicks (updateStats st) + tally visits st ops).
Proof.
  induction ops as [|o ops IH]; intros st Hwf; cbn [foldl tally].
  - destruct (updateStats st) as [urls clicks]. cbn [totalUrls totalClicks]. f_equal; lia.
  - rewrite IH by by apply wellFormed_step.
    rewrite stats_step by done. cbn [totalUrls totalClicks]. f_equal; lia.
Qed.

(** The counter is one more than the number of registrations. *)
Lemma nextId_session_from (ops : list operation) :
  ∀ st, nextId (foldl step st ops) = (nextId st + tally registers st ops)%N.
Proof.
  induction ops as [|o ops IH]; intros st; cbn [foldl tally]; [lia|].
  rewrite IH. destruct o as [url now|shortCode]; cbn [step registers].
  - unfold register. cbn [fst nextId]. lia.
  - unfold redirectToOriginal. destruct (urlDatabase st !! shortCode); cbn [fst nextId]; lia.
Qed.

Lemma nextId_session (ops : list operation) :
  nextId (session ops) = (1 + tally registers initial ops)%N.
Proof. apply nextId_session_from. Qed.

(** ** The matcher *)

Lemma bind_bind (f g : pos → list pos) (ps : list pos) :
  (ps ≫= f) ≫= g = ps ≫= (λ p, f p ≫= g).
Proof.
  induction ps as [|p ps IH]; [done|].
  cbn [mbind list_bind]. change (list_bind ?h ?l) with (l ≫= h).
  by rewrite bind_app, IH.
Qed.

Lemma run_cat_cons (ic : bool) (r : regex) (rs : list regex) (p : pos) :
  run ic (cat (r :: rs)) p = run ic r p ≫= run ic (cat rs).
Proof. reflexivity. Qed.

Lemma run_cat_app (ic : bool) (rs rs' : list regex) :
  ∀ p, run ic (cat (rs ++ rs')) p = run ic (cat rs) p ≫= run ic (cat rs').
Proof.
  induction rs as [|r rs IH]; intros p.
  - change (run ic (cat []) p) with [p]. cbn [app mbind list_bind].
    by rewrite app_nil_r.
  - change ((r :: rs) ++ rs') with (r :: (rs ++ rs')).
    rewrite !run_cat_cons, bind_bind. apply list_bind_ext; [|done].
    intros q. apply IH.
Qed.

(** A literal is read character by character. *)
Lemma run_lit (ic : bool) (w : string) (rs : list regex) :
  ∀ p, run ic (cat (lit w ++ rs)) p =
       match eat ic w p with
       | Some q => run ic (cat rs) q
       | None => []
       end.
Proof.
  induction w as [|c w IH]; intros p; [done|].
  change (lit (String c w) ++ rs) with (Chr c :: (lit w ++ rs)).
  rewrite run_cat_cons. cbn [run eat].
  destruct (rest p) as [|x s]; [done|].
  destruct (Ascii.eqb _ _); [|done].
  cbn [mbind list_bind]. change (list_bind ?h ?l) with (l ≫= h).
  rewrite IH. cbn [mbind list_bind]. by rewrite app_nil_r.
Qed.

(** A pattern that starts with [^] matches at the start or nowhere. *)
Lemma starts_before (c : ascii) (s : string) :
  ∀ p, p ∈ starts (Some c) s → before p ≠ None.
Proof.
  revert c. induction s as [|d s IH]; intros c p; cbn [starts].
  - intros ->%list_elem_of_singleton. done.
  - intros [->|Hin]%elem_of_cons; [done|]. by eapply IH.
Qed.

Lemma test_anchored (ic : bool) (rs : list regex) (s : string) :
  test ic (cat (Bol :: rs)) s = matchesAt ic (cat (Bol :: rs)) (Pos None s).
Proof.
  unfold test.
  assert (∀ ps, (∀ p, p ∈ ps → before p ≠ None) →
                existsb (matchesAt ic (cat (Bol :: rs))) ps = false) as Hrest.
  { induction ps as [|p ps IH]; intros Hps; [done|]. cbn [existsb].
    rewrite IH by (intros q Hq; apply Hps; by right).
    unfold matchesAt. rewrite run_cat_cons. cbn [run].
    destruct (before p) eqn:Hb; [done|]. exfalso. eapply Hps; [by left|done]. }
  destruct s as [|c s]; cbn [starts existsb].
  - by rewrite orb_false_r.
  - rewrite Hrest; [by rewrite orb_false_r|]. apply starts_before.
Qed.

(** ** The scheme *)

Lemma eat_prefix (w : string) :
  ∀ b s, String.prefix w s = bool_decide (is_Some (eat false w (Pos b s))).
Proof.
  induction w as [|c w IH]; intros b [|x s]; cbn [eat String.prefix rest];
    try (symmetry; apply bool_decide_eq_true_2; by eauto);
    try (symmetry; apply bool_decide_eq_false_2; by intros [? ?]).
  cbn [canonicalize andb]. destruct (ascii_dec c x) as [->|Hne].
  - rewrite Ascii.eqb_refl. apply IH.
  - destruct (Ascii.eqb_spec x c) as [->|_]; [done|].
    symmetry. apply bool_decide_eq_false_2. by intros [? ?].
Qed.

Lemma eat_startsWithCI (w : string) :
  Forall plainChar (list_ascii_of_string w) →
  ∀ b s, startsWithCI w s = bool_decide (is_Some (eat true w (Pos b s))).
Proof.
  induction w as [|c w IH]; intros Hw b s; cbn [eat startsWithCI rest].
  - symmetry; apply bool_decide_eq_true_2; eauto.
  - cbn [list_ascii_of_string] in Hw. apply Forall_cons in Hw as [Hc Hw].
    destruct s as [|x s].
    + symmetry. apply bool_decide_eq_false_2. by intros [? ?].
    + rewrite Hc. destruct (Ascii.eqb _ _); cbn [andb].
      * by apply IH.
      * symmetry. apply bool_decide_eq_false_2. by intros [? ?].
Qed.

Lemma scheme_plain (c : ascii) :
  In c (list_ascii_of_string "htps:/") → plainChar c.
Proof.
  cbn [list_ascii_of_string In].
  intros [<-|[<-|[<-|[<-|[<-|[<-|[]]]]]]];
    intros [[] [] [] [] [] [] [] []]; reflexivity.
Qed.

Lemma scheme_plain_all (w : string) :
  incl (list_ascii_of_string w) (list_ascii_of_string "htps:/") →
  Forall plainChar (list_ascii_of_string w).
Proof.
  intros Hincl. apply List.Forall_forall. intros c Hc. by apply scheme_plain, Hincl.
Qed.

Lemma eat_append (ic : bool) (w w' : string) :
  ∀ p, eat ic (w +:+ w') p =
       match eat ic w p with Some q => eat ic w' q | None => None end.
Proof.
  induction w as [|c w IH]; intros p; [done|].
  rewrite append_cons. cbn [eat]. destruct (rest p) as [|x s]; [done|].
  destruct (Ascii.eqb _ _); [apply IH|done].
Qed.

Lemma run_Chr (ic : bool) (c : ascii) (p : pos) :
  run ic (Chr c) p =
  match eat ic (String c "") p with Some q => [q] | None => [] end.
Proof.
  cbn [run eat]. destruct (rest p) as [|x s]; [done|]. by destruct (Ascii.eqb _ _).
Qed.

(** What both patterns of the program start with: [^https?:\/\/]. *)
Lemma run_scheme (ic : bool) (rs : list regex) (p : pos) :
  run ic (cat ([Bol] ++ lit "http" ++ [Opt (Chr "s")] ++ lit "://" ++ rs)) p =
  match before p with
  | Some _ => []
  | None =>
      match eat ic "https://" p with Some q => run ic (cat rs) q | None => [] end ++
      match eat ic "http://" p with Some q => run ic (cat rs) q | None => [] end
  end.
Proof.
  change ([Bol] ++ ?l) with (Bol :: l). rewrite run_cat_cons. cbn [run].
  destruct (before p); [done|].
  cbn [mbind list_bind]. rewrite app_nil_r, run_lit.
  change "https://" with ("http" +:+ ("s" +:+ "://")).
  change "http://" with ("http" +:+ "://").
  rewrite !eat_append.
  destruct (eat ic "http" p) as [q|]; [|done].
  change ([Opt (Chr "s")] ++ ?l) with (Opt (Chr "s") :: l).
  rewrite run_cat_cons.
  change (run ic (Opt (Chr "s")) q) with (run ic (Chr "s") q ++ [q]).
  rewrite bind_app, run_Chr.
  rewrite eat_append. f_equal.
  - destruct (eat ic "s" q) as [q'|]; [|done].
    cbn [mbind list_bind]. by rewrite app_nil_r, run_lit.
  - cbn [mbind list_bind]. by rewrite app_nil_r, run_lit.
Qed.

Lemma matchesAt_app_nil (ic : bool) (o o' : option pos) :
  match (match o with Some q => [q] | None => [] end ++
         match o' with Some q => [q] | None => [] end) with
  | [] => false
  | _ :: _ => true
  end = bool_decide (is_Some o) || bool_decide (is_Some o').
Proof. destruct o, o'; reflexivity. Qed.

(** The test of [normalizeURL]: the scheme, in any letter case. *)
Lemma test_protocolRegex (url : string) :
  test true protocolRegex url = hasSchemeCI url.
Proof.
  unfold protocolRegex. change ([Bol] ++ ?l) with (Bol :: l).
  rewrite test_anchored. change (Bol :: ?l) with ([Bol] ++ l).
  unfold matchesAt.
  replace (lit "://") with (lit "://" ++ []) by apply app_nil_r.
  rewrite run_scheme. cbn [before].
  change (run true (cat [])) with (λ q : pos, [q]).
  rewrite (matchesAt_app_nil true). unfold hasSchemeCI.
  rewrite <- !eat_startsWithCI; [apply orb_comm|..];
    apply scheme_plain_all; intros c; cbn [list_ascii_of_string In]; tauto.
Qed.

(** The pattern of the validator wants the scheme in lower case. *)
Lemma test_urlValidationRegex_scheme (url : string) :
  test false urlValidationRegex url = true → hasScheme url = true.
Proof.
  unfold urlValidationRegex. change ([Bol] ++ ?l) with (Bol :: l).
  rewrite test_anchored. change (Bol :: ?l) with ([Bol] ++ l).
  unfold matchesAt. rewrite run_scheme. cbn [before].
  unfold hasScheme. rewrite !(eat_prefix _ None).
  by destruct (eat false "https://" _), (eat false "http://" _).
Qed.

(** The sample URLs of [addSampleUrls] (app.js, lines 434-439) match the
    pattern of the validator. *)
Example sample_urls_match :
  forallb (test false urlValidationRegex)
    ["https://www.google.com";
     "https://github.com/microsoft/vscode";
     "https://stackoverflow.com/questions/742013/how-do-i-create-a-url-shortener";
     "https://www.youtube.com/watch?v=dQw4w9WgXcQ"] = true.
Proof. vm_compute. reflexivity. Qed.

(** Strings that the pattern rejects: no dot after the scheme, a last
    label that does not end at a word boundary, a scheme in upper case, a
    space, a comma. *)
Example rejected_urls :
  existsb (test false urlValidationRegex)
    ["https://localhost"; "https://example.museum_"; "HTTP://example.com";
     "https://not a url"; "https://example.com/a,b"] = false.
Proof. vm_compute. reflexivity. Qed.

Example trim_example :
  let tab := String (ascii_of_N 9) "" in
  trim ("  " +:+ tab +:+ "example.com/a b " +:+ tab) = "example.com/a b".
Proof. reflexivity. Qed.

(** ** What a match reads *)

Lemma allChars_impl (P Q : ascii → bool) (s : string) :
  (∀ c, P c = true → Q c = true) → allChars P s = true → allChars Q s = true.
Proof.
  intros HPQ. induction s as [|c s IH]; [done|]. cbn [allChars].
  intros [Hc Hs]%andb_prop. by rewrite (HPQ c Hc), IH.
Qed.

Lemma span_refl (P : ascii → bool) (p : pos) : span P p p.
Proof. by exists "". Qed.

Lemma span_trans (P : ascii → bool) (p q r : pos) :
  span P p q → span P q r → span P p r.
Proof.
  intros (w & Hw & HP) (w' & Hw' & HP'). exists (w +:+ w'). split.
  - by rewrite append_assoc, <- Hw'.
  - by rewrite allChars_app, HP, HP'.
Qed.

Lemma span_weaken (P Q : ascii → bool) (p q : pos) :
  (∀ c, P c = true → Q c = true) → span P p q → span Q p q.
Proof. intros HPQ (w & Hw & HP). exists w. eauto using allChars_impl. Qed.

Lemma span_step (P : ascii → bool) (b : option ascii) (x : ascii) (s : string) :
  P x = true → span P (Pos b (String x s)) (Pos (Some x) s).
Proof. intros Hx. exists (String x ""). split; [done|]. cbn [allChars]. by rewrite Hx. Qed.

Section Rounds.
Variables (P : ascii → bool) (f : pos → list pos).
Hypothesis f_span : ∀ p q, q ∈ f p → span P p q.

Lemma bind_span (ps : list pos) (q : pos) :
  q ∈ ps ≫= f → ∃ p, p ∈ ps ∧ span P p q.
Proof. intros (p & Hq & Hp)%list_elem_of_bind. eauto. Qed.

Lemma exactly_span (n : nat) :
  ∀ ps q, q ∈ exactly f n ps → ∃ p, p ∈ ps ∧ span P p q.
Proof.
  induction n as [|n IH]; intros ps q; cbn [exactly].
  - eauto using span_refl.
  - intros (m & (p & Hp & Hpm)%bind_span & Hmq)%IH. eauto using span_trans.
Qed.

Lemma upTo_span (n : nat) :
  ∀ ps q, q ∈ upTo f n ps → ∃ p, p ∈ ps ∧ span P p q.
Proof.
  induction n as [|n IH]; intros ps q; cbn [upTo].
  - eauto using span_refl.
  - intros [Hq|(m & (p & Hp & Hpm)%bind_span & Hmq)%IH]%elem_of_app;
      eauto using span_refl, span_trans.
Qed.
End Rounds.

(** A case-sensitive match of [r] reads characters of [reads r] only. *)
Lemma run_span (r : regex) : ∀ p q, q ∈ run false r p → span (reads r) p q.
Proof.
  induction r as [| | | |c|ranges|r1 IH1 r2 IH2|r IH|lo hi r IH|r IH];
    intros [b s] q; cbn [run reads before rest].
  - intros ->%list_elem_of_singleton. apply span_refl.
  - destruct b; [by intros ?%elem_of_nil|].
    intros ->%list_elem_of_singleton. apply span_refl.
  - destruct s; [|by intros ?%elem_of_nil].
    intros ->%list_elem_of_singleton. apply span_refl.
  - destruct (xorb _ _); [|by intros ?%elem_of_nil].
    intros ->%list_elem_of_singleton. apply span_refl.
  - destruct s as [|x s]; [by intros ?%elem_of_nil|]. cbn [canonicalize andb].
    destruct (Ascii.eqb x c) eqn:Hx; [|by intros ?%elem_of_nil].
    intros ->%list_elem_of_singleton. by apply span_step.
  - destruct s as [|x s]; [by intros ?%elem_of_nil|].
    destruct (inClass false ranges x) eqn:Hx; [|by intros ?%elem_of_nil].
    intros ->%list_elem_of_singleton. by apply span_step.
  - intros (m & Hq & Hm)%list_elem_of_bind.
    eapply span_trans; eapply span_weaken; [|by apply IH1| |by apply IH2];
      intros c ->; [done|apply orb_true_r].
  - intros [Hq| ->%list_elem_of_singleton]%elem_of_app; [by apply IH|apply span_refl].
  - intros (m & (p & ->%list_elem_of_singleton & Hpm)%(exactly_span _ _ IH) & Hmq)%(upTo_span _ _ IH).
    by eapply span_trans.
  - intros (p & ->%list_elem_of_singleton & Hpq)%(upTo_span _ _ IH). done.
Qed.

(** A pattern that ends with [$] matches up to the end only. *)
Lemma run_cat_Eol (ic : bool) (rs : list regex) (p q : pos) :
  last rs = Some Eol → q ∈ run ic (cat rs) p → rest q = "".
Proof.
  intros [rs' ->]%last_Some.
  rewrite run_cat_app. intros (m & Hq & Hm)%list_elem_of_bind.
  change (run ic (cat [Eol]) m) with (run ic Eol m ≫= λ p, [p]) in Hq.
  cbn [run] in Hq. destruct (rest m) eqn:Hrest; [|by apply elem_of_nil in Hq].
  cbn [mbind list_bind app] in Hq. by apply list_elem_of_singleton in Hq as ->.
Qed.

Lemma matchesAt_elem (ic : bool) (r : regex) (p : pos) :
  matchesAt ic r p = true → ∃ q, q ∈ run ic r p.
Proof.
  unfold matchesAt. destruct (run ic r p) as [|q qs]; [done|].
  intros _. exists q. by left.
Qed.

Lemma reads_urlValidationRegex (c : ascii) :
  reads urlValidationRegex c = true → inClass false tailClass c = true.
Proof. destruct c as [[] [] [] [] [] [] [] []]; vm_compute; done. Qed.

(** The pattern of the validator accepts characters of its last class
    only: letters, digits and [-()@:%_+.~#?&/=]. *)
Lemma test_urlValidationRegex_chars (url : string) :
  test false urlValidationRegex url = true →
  allChars (inClass false tailClass) url = true.
Proof.
  unfold urlValidationRegex at 1. change ([Bol] ++ ?l) with (Bol :: l).
  rewrite test_anchored.
  intros [q Hq]%matchesAt_elem.
  pose proof (run_span _ _ _ Hq) as (w & Hw & Hall).
  apply run_cat_Eol in Hq as Hend; [|reflexivity].
  cbn [rest] in Hw. rewrite Hend, append_nil_r in Hw. subst w.
  eapply allChars_impl, Hall. apply reads_urlValidationRegex.
Qed.

(** ** The loop on binary64 numbers *)

Lemma roundHalfEven_near (a b : N) :
  (0 < b)%N →
  (a / b ≤ roundHalfEven a b)%N ∧ (2 * (b * roundHalfEven a b) ≤ 2 * a + b)%N.
Proof.
  intros Hb. unfold roundHalfEven. cbv zeta.
  pose proof (N.div_mod a b ltac:(lia)) as Ha.
  pose proof (N.mod_lt a b ltac:(lia)) as Hr.
  set (q := (a / b)%N) in *. set (r := (a mod b)%N) in *.
  destruct (N.ltb_spec (2 * r) b); [split; nia|].
  destruct (N.ltb_spec b (2 * r)); [split; nia|].
  destruct (N.even q); split; nia.
Qed.

Lemma log2_scaled (num : N) (k : N) :
  (num < 62 * 2 ^ k)%N → (N.log2 (num * 64 / 62) < k + 6)%N ∨ (num * 64 / 62 = 0)%N.
Proof.
  intros Hlt. destruct (N.eq_dec (num * 64 / 62) 0) as [|Hne]; [by right|left].
  apply N.log2_lt_pow2; [by apply N.neq_0_lt_0|].
  rewrite N.pow_add_r. change (2 ^ 6)%N with 64%N.
  apply N.Div0.div_lt_upper_bound. generalize dependent (2 ^ k)%N. intros; lia.
Qed.

Lemma floorDiv62_exact (num : N) :
  (num < 62 * 2 ^ 48)%N → floorDiv62 num = (num / 62)%N.
Proof.
  intros Hlt. unfold floorDiv62.
  assert (N.log2 (num * 64 / 62) ≤ 53)%N as Hlog.
  { destruct (log2_scaled num 48 Hlt) as [H|H]; [lia|]. rewrite H. done. }
  set (l := N.log2 (num * 64 / 62)) in *.
  assert (52 - (Z.of_N l - 6) = Z.of_N (58 - l))%Z as -> by lia.
  rewrite (proj2 (Z.leb_le _ _)) by lia. rewrite N2Z.id.
  set (k := (58 - l)%N).
  assert (32 ≤ 2 ^ k)%N as Hk.
  { change 32%N with (2 ^ 5)%N. apply N.pow_le_mono_r; lia. }
  destruct (roundHalfEven_near (num * 2 ^ k) 62 ltac:(lia)) as [Hlow Hhigh].
  set (m := roundHalfEven (num * 2 ^ k) 62) in *.
  pose proof (N.div_mod num 62 ltac:(lia)) as Hnum.
  pose proof (N.mod_lt num 62 ltac:(lia)) as Hr.
  set (q := (num / 62)%N) in *. set (r := (num mod 62)%N) in *.
  set (p := (2 ^ k)%N) in *.
  assert (q * p ≤ m)%N as Hm1.
  { etrans; [|exact Hlow]. apply N.div_le_lower_bound; [lia|].
    assert (62 * q ≤ num)%N as Hq by lia.
    apply (N.mul_le_mono_r _ _ p) in Hq. lia. }
  assert (62 * m < 62 * ((q + 1) * p))%N as Hm2.
  { assert (r * p ≤ 61 * p)%N by (apply N.mul_le_mono_r; lia).
    assert (num * p = 62 * (q * p) + r * p)%N by (rewrite Hnum; lia).
    lia. }
  symmetry. apply N.div_unique with (r := (m - q * p)%N); lia.
Qed.

Lemma floorDiv62_half (num : N) : (floorDiv62 num ≤ num / 2)%N.
Proof.
  unfold floorDiv62. set (l := N.log2 (num * 64 / 62)).
  apply N.div_le_lower_bound; [lia|].
  destruct (0 <=? 52 - (Z.of_N l - 6))%Z eqn:Hs.
  - set (k := Z.to_N (52 - (Z.of_N l - 6))).
    destruct (roundHalfEven_near (num * 2 ^ k) 62 ltac:(lia)) as [_ Hhigh].
    set (m := roundHalfEven (num * 2 ^ k) 62) in *.
    assert (0 < 2 ^ k)%N as Hp by (apply N.neq_0_lt_0, N.pow_nonzero; lia).
    pose proof (N.Div0.mul_div_le m (2 ^ k)) as Hdiv.
    set (d := (m / 2 ^ k)%N) in *. set (p := (2 ^ k)%N) in *.
    assert (62 * d * p ≤ (num + 31) * p)%N as H.
    { assert (31 * 1 ≤ 31 * p)%N by (apply N.mul_le_mono_l; lia). lia. }
    apply N.mul_le_mono_pos_r in H; [lia|done].
  - apply Z.leb_gt in Hs.
    set (k := Z.to_N (- (52 - (Z.of_N l - 6)))).
    assert (l = 58 + k)%N as Hl by lia.
    assert (0 < 2 ^ k)%N as Hp by (apply N.neq_0_lt_0, N.pow_nonzero; lia).
    destruct (roundHalfEven_near num (62 * 2 ^ k) ltac:(lia)) as [_ Hhigh].
    set (m := roundHalfEven num (62 * 2 ^ k)) in *.
    assert (num * 64 / 62 ≠ 0)%N as Hne.
    { intros H0. unfold l in Hl. rewrite H0 in Hl. cbn in Hl. lia. }
    pose proof (proj1 (N.log2_spec (num * 64 / 62) ltac:(by apply N.neq_0_lt_0))) as Hspec.
    fold l in Hspec. rewrite Hl, N.pow_add_r in Hspec.
    pose proof (N.Div0.mul_div_le (num * 64) 62) as Hdiv.
    change (2 ^ 58)%N with 288230376151711744%N in Hspec.
    set (p := (2 ^ k)%N) in *. set (a := (num * 64 / 62)%N) in *.
    set (x := (m * p)%N).
    assert (62 * x ≤ num + 31 * p)%N by (unfold x; lia).
    lia.
Qed.

(** The loop of the code terminates on every number. *)
Lemma encodeLoop_binary64_terminates (fuel : nat) :
  ∀ (num : N) (encoded : string),
    (num < 2 ^ N.of_nat fuel)%N → is_Some (encodeLoop_binary64 fuel num encoded).
Proof.
  induction fuel as [|fuel IH]; intros num encoded Hlt; cbn [encodeLoop_binary64].
  - change (2 ^ N.of_nat 0)%N with 1%N in Hlt.
    rewrite (proj2 (N.ltb_ge 0 num)) by lia. eauto.
  - destruct (0 <? num)%N eqn:Hpos; [|eauto].
    apply IH. rewrite Nat2N.inj_succ, N.pow_succ_r' in Hlt.
    eapply N.le_lt_trans; [apply floorDiv62_half|].
    apply N.Div0.div_lt_upper_bound. lia.
Qed.

Lemma encodeLoop_binary64_more_fuel (fuel fuel' : nat) :
  ∀ (num : N) (encoded s : string),
    (fuel ≤ fuel')%nat → encodeLoop_binary64 fuel num encoded = Some s →
    encodeLoop_binary64 fuel' num encoded = Some s.
Proof.
  revert fuel'. induction fuel as [|fuel IH]; intros fuel' num encoded s Hle;
    cbn [encodeLoop_binary64].
  - destruct (0 <? num)%N eqn:Hpos; [discriminate|].
    intros [= <-]. destruct fuel'; cbn [encodeLoop_binary64]; by rewrite Hpos.
  - destruct (0 <? num)%N eqn:Hpos.
    + destruct fuel' as [|fuel']; [lia|]. cbn [encodeLoop_binary64]. rewrite Hpos.
      apply IH. lia.
    + intros [= <-]. destruct fuel'; cbn [encodeLoop_binary64]; by rewrite Hpos.
Qed.

(** With at least as many turns as [num] has bits, the loop of the code
    returns, and what it returns is [encodeBase62_binary64 num]. *)
Lemma encodeBase62_binary64_fuel_enough (fuel : nat) (num : N) :
  (S (N.to_nat (N.log2 num)) ≤ fuel)%nat →
  encodeBase62_binary64_fuel fuel num = Some (encodeBase62_binary64 num).
Proof.
  intros Hle. unfold encodeBase62_binary64, encodeBase62_binary64_fuel.
  destruct (num =? 0)%N; [done|].
  destruct (encodeLoop_binary64_terminates _ num "" (log2_fuel_bound num)) as [s Hs].
  rewrite Hs. cbn [default]. eapply encodeLoop_binary64_more_fuel; eauto.
Qed.

(** Below 62 * 2^48 the two loops are the same. *)
Lemma encodeLoop_binary64_exact (fuel : nat) :
  ∀ (num : N) (encoded : string),
    (num < 62 * 2 ^ 48)%N →
    encodeLoop_binary64 fuel num encoded = encodeLoop fuel num encoded.
Proof.
  induction fuel as [|fuel IH]; intros num encoded Hlt; [done|].
  cbn [encodeLoop_binary64 encodeLoop]. destruct (0 <? num)%N; [|done].
  rewrite floorDiv62_exact by done. apply IH.
  eapply N.le_lt_trans; [|exact Hlt]. apply N.Div0.div_le_upper_bound. lia.
Qed.

Lemma encodeBase62_binary64_fuel_exact (fuel : nat) (num : N) :
  (num ≤ 2 ^ 53)%N →
  encodeBase62_binary64_fuel fuel num = encodeBase62_fuel fuel num.
Proof.
  intros Hle. unfold encodeBase62_binary64_fuel, encodeBase62_fuel.
  destruct (num =? 0)%N; [done|]. apply encodeLoop_binary64_exact.
  change (2 ^ 53)%N with 9007199254740992%N in Hle.
  change (62 * 2 ^ 48)%N with 17451448556060672%N. lia.
Qed.

(** Up to 2^53 the loop of the code returns what the exact loop returns. *)
Lemma encodeBase62_binary64_exact (num : N) :
  (num ≤ 2 ^ 53)%N → encodeBase62_binary64 num = encodeBase62 num.
Proof.
  intros Hle. unfold encodeBase62_binary64, encodeBase62.
  by rewrite encodeBase62_binary64_fuel_exact.
Qed.

(** Every integer up to 2^53 is a binary64 number. *)
Lemma isBinary64_small (num : N) : (num ≤ 2 ^ 53)%N → isBinary64 num = true.
Proof.
  intros Hle. unfold isBinary64. apply andb_true_intro. split.
  - apply N.eqb_eq.
    assert (N.log2 num ≤ 53)%N as Hlog.
    { change 53%N with (N.log2 (2 ^ 53)). by apply N.log2_le_mono. }
    destruct (N.eq_dec (N.log2 num) 53) as [H53|Hne].
    + assert (num = 2 ^ 53)%N as ->; [|by vm_compute].
      apply N.le_antisymm; [done|]. rewrite <- H53.
      apply N.log2_spec. destruct num; [discriminate|lia].
    + replace (N.log2 num - 52)%N with 0%N by lia. apply N.mod_1_r.
  - apply N.ltb_lt. eapply N.le_lt_trans; [exact Hle|]. by vm_compute.
Qed.

(** Beyond the bound the two loops part: on these binary64 numbers the
    code rounds a quotient up. *)
Example encodeBase62_binary64_rounds :
  isBinary64 34902897112121404 = true ∧
  encodeBase62_binary64 34902897112121404 = "2Zr34kLAHy" ∧
  encodeBase62 34902897112121404 = "2Zr34kLAGy" ∧
  isBinary64 (62 ^ 12 - 4096) = true ∧
  encodeBase62_binary64 (62 ^ 12 - 4096) = "100000000002w" ∧
  encodeBase62 (62 ^ 12 - 4096) = "zzzzzzzzzyvw".
Proof. repeat split; vm_compute; reflexivity. Qed.

(** * The code generator *)

(** C2, as the code has it: with the alphabet 0-9A-Za-z the codes of 1,
    62, 10, 36 and 0 are "1", "10", "A", "a" and "0"; the code of 61, the
    last index of the alphabet, is "z", and "Z" is the code of 35. *)
Theorem encodeBase62_vectors :
  encodeBase62 1 = "1" ∧ encodeBase62 62 = "10" ∧ encodeBase62 61 = "z" ∧
  encodeBase62 35 = "Z" ∧ encodeBase62 10 = "A" ∧ encodeBase62 36 = "a" ∧
  encodeBase62 0 = "0".
Proof. repeat split; reflexivity. Qed.

(** C2 as stated fails: the code of 61 is not "Z". *)
Lemma encodeBase62_61_counterexample :
  encodeBase62 61 = "z" ∧ encodeBase62 61 ≠ "Z".
Proof. split; [reflexivity|discriminate]. Qed.




(** * The registry *)

Lemma redirect_stored (shortCode : string) (st : shortener) (data : urlData) :
  urlDatabase st !! shortCode = Some data →
  redirectToOriginal shortCode st =
  (Shortener (<[shortCode := click data]> (urlDatabase st)) (nextId st),
   Some (click data)).
Proof. intros H. unfold redirectToOriginal. by rewrite H. Qed.

(** After [n] visits of a record, the record has [n] clicks more. *)
Lemma redirects_stored (n : nat) (shortCode : string) (st : shortener) (data : urlData) :
  urlDatabase st !! shortCode = Some data →
  urlDatabase (redirects n shortCode st) !! shortCode =
  Some (UrlData (originalUrl data) (clickCount data + N.of_nat n)
                (createdAt data) (id data)).
Proof.
  intros Hlook. induction n as [|n IH]; cbn [redirects].
  - rewrite Hlook, N.add_0_r. by destruct data.
  - rewrite (redirect_stored _ _ _ IH). cbn [fst urlDatabase].
    rewrite lookup_insert_eq. unfold click. cbn [originalUrl clickCount createdAt id].
    do 2 f_equal. lia.
Qed.

(** C1, as the code has it: the record that [register] stores has no
    click, and the call of [redirectToOriginal] number [n + 1] on its code
    hands over the record with [n + 1] clicks: 1, then 2, then 3. *)
Theorem register_then_redirects (url : string) (now : N) (st : shortener) :
  let st1 := (register url now st).1 in
  let shortCode := (register url now st).2 in
  urlDatabase st1 !! shortCode = Some (UrlData url 0 now (nextId st)) ∧
  ∀ n : nat,
    (redirectToOriginal shortCode (redirects n shortCode st1)).2 =
    Some (UrlData url (N.of_nat n + 1) now (nextId st)).
Proof.
  cbn zeta.
  assert (urlDatabase (register url now st).1 !! (register url now st).2
          = Some (UrlData url 0 now (nextId st))) as Hnew.
  { unfold register. cbn [fst snd urlDatabase]. apply lookup_insert_eq. }
  split; [done|]. intros n.
  pose proof (redirects_stored n _ _ _ Hnew) as Hn.
  rewrite (redirect_stored _ _ _ Hn). cbn [snd]. unfold click.
  cbn [originalUrl clickCount createdAt id]. do 2 f_equal.
Qed.

(** C1 as stated fails: the first call after the registration hands over
    a record with one click, not with none. *)
Lemma first_redirect_counterexample :
  (register "https://a.com" 0 initial).2 = "1" ∧
  (redirectToOriginal "1" (register "https://a.com" 0 initial).1).2 =
  Some (UrlData "https://a.com" 1 0 1).
Proof. split; reflexivity. Qed.

(** C4: on a stored code [redirectToOriginal] adds one click to that
    record, changes nothing else and hands over the record as changed; on
    another code it reports that nothing was found and changes nothing. *)
Theorem redirectToOriginal_effect (shortCode : string) (st : shortener) :
  let st' := (redirectToOriginal shortCode st).1 in
  let result := (redirectToOriginal shortCode st).2 in
  match urlDatabase st !! shortCode with
  | Some data =>
      result = Some (UrlData (originalUrl data) (clickCount data + 1)
                             (createdAt data) (id data)) ∧
      urlDatabase st' !! shortCode = result ∧
      (∀ other, other ≠ shortCode →
         urlDatabase st' !! other = urlDatabase st !! other) ∧
      nextId st' = nextId st ∧
      totalUrls (updateStats st') = totalUrls (updateStats st)
  | None =>
      result = None ∧ st' = st ∧
      totalUrls (updateStats st') = totalUrls (updateStats st)
  end.
Proof.
  cbn zeta. destruct (urlDatabase st !! shortCode) as [data|] eqn:Hlook.
  - rewrite (redirect_stored _ _ _ Hlook). cbn [fst snd urlDatabase nextId].
    split; [done|]. split; [apply lookup_insert_eq|].
    split; [by intros other Hne; apply lookup_insert_ne|]. split; [done|].
    unfold updateStats. cbn [totalUrls urlDatabase].
    rewrite map_size_insert_Some; eauto.
  - unfold redirectToOriginal. by rewrite Hlook.
Qed.

(** C5: in every state that a session reaches, the records are stored
    under the codes of their [id]s, which are the numbers below [nextId],
    so two codes are the same exactly when their [id]s are; a registration
    returns the code of [nextId], which was free, stores the record there,
    leaves the other records alone, all with smaller [id]s, and moves
    [nextId] up by one; [shortenURL] registers whenever the validation
    succeeds; and three registrations from the start return "1", "2", "3". *)
Theorem registry_invariant (st : shortener) (Hreach : reachable st) :
  wellFormed st ∧
  (∀ c1 c2 d1 d2,
     urlDatabase st !! c1 = Some d1 → urlDatabase st !! c2 = Some d2 →
     (c1 = c2 ↔ id d1 = id d2)) ∧
  (∀ url now,
     let st' := (register url now st).1 in
     let shortCode := (register url now st).2 in
     shortCode = encodeBase62 (nextId st) ∧
     urlDatabase st !! shortCode = None ∧
     urlDatabase st' !! shortCode = Some (UrlData url 0 now (nextId st)) ∧
     (∀ c d, urlDatabase st !! c = Some d →
        (id d < nextId st)%N ∧ urlDatabase st' !! c = Some d) ∧
     nextId st' = (nextId st + 1)%N ∧
     reachable st') ∧
  (∀ URL_ctor inputValue now url,
     validateAndNormalizeURL URL_ctor inputValue = inl url →
     shortenURL URL_ctor inputValue now st =
     ((register url now st).1, inl (encodeBase62 (nextId st)))) ∧
  (∀ t1 t2 t3,
     let r1 := register "https://a.com" t1 initial in
     let r2 := register "https://b.com" t2 r1.1 in
     let r3 := register "https://c.com" t3 r2.1 in
     r1.2 = "1" ∧ r2.2 = "2" ∧ r3.2 = "3").
Proof.
  pose proof (reachable_wellFormed st Hreach) as Hwf.
  split; [done|]. split; [|split; [|split]].
  - intros c1 c2 d1 d2 H1 H2. destruct Hwf as (_ & Hkeys & _).
    destruct (Hkeys _ _ H1) as [-> _]. destruct (Hkeys _ _ H2) as [-> _].
    split; [apply encodeBase62_inj|congruence].
  - intros url now. cbn zeta.
    pose proof (wellFormed_fresh st Hwf) as Hfresh.
    unfold register. cbn [fst snd urlDatabase nextId].
    split; [done|]. split; [done|]. split; [apply lookup_insert_eq|].
    split; [|split; [done|]].
    + intros c d Hc. destruct Hwf as (_ & Hkeys & _).
      destruct (Hkeys _ _ Hc) as [-> Hid]. split; [lia|].
      rewrite lookup_insert_ne; [done|]. intros Heq%encodeBase62_inj. lia.
    + apply (reachable_step st (Register url now) Hreach).
  - intros URL_ctor inputValue now url Hvalid.
    unfold shortenURL. rewrite Hvalid. reflexivity.
  - intros t1 t2 t3. cbn zeta. repeat split; reflexivity.
Qed.

Lemma registry_invariant_witness :
  wellFormed (session [Register "https://a.com" 7; Resolve "1"]) ∧
  urlDatabase (session [Register "https://a.com" 7; Resolve "1"]) !! "2" = None.
Proof.
  assert (reachable (session [Register "https://a.com" 7; Resolve "1"])) as Hreach
    by (by eexists).
  split.
  - apply (registry_invariant _ Hreach).
  - apply (proj1 (proj2 (proj1 (proj2 (proj2 (registry_invariant _ Hreach)))
                          "https://b.com" 8%N))).
Defined.

(** C8: after a session, [updateStats] shows the number of records and
    the sum of their clicks; the first is the number of registrations of
    the session and the second the number of its calls of
    [redirectToOriginal] on a stored code.  Three registrations and five
    such calls show 3 and 5. *)
Theorem updateStats_session (ops : list operation) :
  updateStats (session ops) =
    Stats (N.of_nat (size (urlDatabase (session ops))))
          (map_fold (λ _ data sum, (clickCount data + sum)%N) 0%N
                    (urlDatabase (session ops))) ∧
  totalUrls (updateStats (session ops)) = tally registers initial ops ∧
  totalClicks (updateStats (session ops)) = tally visits initial ops ∧
  updateStats (session [Register "https://a.com" 1; Register "https://b.com" 2;
                        Register "https://c.com" 3; Resolve "1"; Resolve "2";
                        Resolve "1"; Resolve "3"; Resolve "3"])
  = Stats 3 5.
Proof.
  split; [|split; [|split]].
  - unfold updateStats. f_equal. rewrite map_fold_foldr.
    generalize (map_to_list (urlDatabase (session ops))). intros l.
    induction l as [|[k d] l IH]; [done|].
    rewrite fmap_cons, totalClickCount_cons. cbn [foldr uncurry snd]. by rewrite IH.
  - unfold session. by rewrite (stats_session_from ops initial wellFormed_initial).
  - unfold session. by rewrite (stats_session_from ops initial wellFormed_initial).
  - vm_compute. reflexivity.
Qed.

(** * The validator *)

Section Validator.
Variable URL_ctor : string → bool.

Lemma validate_empty (raw : string) :
  trim raw = "" → validateAndNormalizeURL URL_ctor raw = inr EmptyInput.
Proof. intros H. unfold validateAndNormalizeURL. by rewrite H. Qed.

Lemma validate_nonempty (raw : string) :
  trim raw ≠ "" →
  validateAndNormalizeURL URL_ctor raw =
  if isValidURL URL_ctor (normalizeURL (trim raw))
  then inl (normalizeURL (trim raw)) else inr InvalidFormat.
Proof.
  intros H%String.eqb_neq. unfold validateAndNormalizeURL. rewrite H.
  by destruct (isValidURL _ _).
Qed.

Lemma normalizeURL_scheme (url : string) :
  normalizeURL url = if hasSchemeCI url then url else "https://" +:+ url.
Proof.
  unfold normalizeURL. rewrite test_protocolRegex. by destruct (hasSchemeCI url).
Qed.

Lemma hasSchemeCI_nonempty (url : string) : hasSchemeCI url = true → url ≠ "".
Proof. by intros H ->. Qed.
End Validator.

(** C7: the validation fails with [EmptyInput] exactly when the trimmed
    input is empty; otherwise it checks the trimmed input, with "https://"
    in front of it unless it starts with "http://" or "https://" in some
    letter case.  On a platform whose parser accepts
    "https://example.com", the input "example.com" gives that string; the
    empty input fails with [EmptyInput] and "not a url" with
    [InvalidFormat]. *)
Theorem validate_empty_and_prefix (URL_ctor : string → bool)
    (Hplatform : URL_ctor "https://example.com" = true) :
  (∀ raw, validateAndNormalizeURL URL_ctor raw = inr EmptyInput ↔ trim raw = "") ∧
  (∀ url, normalizeURL url = if hasSchemeCI url then url else "https://" +:+ url) ∧
  (∀ raw, trim raw ≠ "" →
     validateAndNormalizeURL URL_ctor raw =
     if isValidURL URL_ctor (normalizeURL (trim raw))
     then inl (normalizeURL (trim raw)) else inr InvalidFormat) ∧
  validateAndNormalizeURL URL_ctor "example.com" = inl "https://example.com" ∧
  validateAndNormalizeURL URL_ctor "" = inr EmptyInput ∧
  validateAndNormalizeURL URL_ctor "not a url" = inr InvalidFormat.
Proof.
  split; [|split; [|split; [|split; [|split]]]].
  - intros raw. split; [|apply validate_empty].
    destruct (decide (trim raw = "")) as [|Hne]; [done|].
    rewrite validate_nonempty by done. by destruct (isValidURL _ _).
  - apply normalizeURL_scheme.
  - apply validate_nonempty.
  - rewrite validate_nonempty by (vm_compute; discriminate).
    change (normalizeURL (trim "example.com")) with "https://example.com".
    unfold isValidURL. rewrite Hplatform.
    by replace (test false urlValidationRegex "https://example.com") with true
      by (vm_compute; reflexivity).
  - by apply validate_empty.
  - rewrite validate_nonempty by (vm_compute; discriminate).
    change (normalizeURL (trim "not a url")) with "https://not a url".
    unfold isValidURL.
    replace (test false urlValidationRegex "https://not a url") with false
      by (vm_compute; reflexivity).
    by destruct (URL_ctor "https://not a url").
Qed.

Lemma validate_empty_and_prefix_witness :
  sampleURL "https://example.com" = true ∧
  validateAndNormalizeURL sampleURL "example.com" = inl "https://example.com".
Proof.
  assert (sampleURL "https://example.com" = true) as H by (vm_compute; reflexivity).
  split; [exact H|]. apply (validate_empty_and_prefix sampleURL H).
Defined.

(** C3, as the code has it: a non-empty trimmed input fails with
    [InvalidFormat] exactly when the platform's parser rejects the
    normalized string or the pattern of the validator does not match it;
    otherwise the result is the normalized string itself.  What the
    pattern accepts starts with the scheme in lower case and has letters,
    digits and the characters [-()@:%_+.~#?&/=] only. *)
Theorem validate_format (URL_ctor : string → bool) (raw : string)
    (Hnonempty : trim raw ≠ "") :
  let url := normalizeURL (trim raw) in
  (validateAndNormalizeURL URL_ctor raw = inr InvalidFormat ↔
     URL_ctor url = false ∨ test false urlValidationRegex url = false) ∧
  (validateAndNormalizeURL URL_ctor raw ≠ inr InvalidFormat →
     validateAndNormalizeURL URL_ctor raw = inl url) ∧
  (∀ destination, validateAndNormalizeURL URL_ctor raw = inl destination →
     destination = url ∧ hasScheme url = true ∧
     allChars (inClass false tailClass) url = true) ∧
  (allChars (inClass false tailClass) url = false →
     validateAndNormalizeURL URL_ctor raw = inr InvalidFormat).
Proof.
  cbn zeta. rewrite validate_nonempty by done. unfold isValidURL.
  destruct (URL_ctor _) eqn:Hparse;
    [destruct (test false urlValidationRegex _) eqn:Hpattern|].
  - pose proof (test_urlValidationRegex_scheme _ Hpattern) as Hscheme.
    pose proof (test_urlValidationRegex_chars _ Hpattern) as Hchars.
    split; [split; [done|by intros [|]]|]. split; [done|].
    split; [by intros ? [= <-]|]. by rewrite Hchars.
  - split; [split; [by right|done]|]. split; [done|]. split; done.
  - split; [split; [by left|done]|]. split; [done|]. split; done.
Qed.

Lemma validate_format_witness :
  validateAndNormalizeURL sampleURL "https://example.com/a,b" = inr InvalidFormat.
Proof.
  assert (trim "https://example.com/a,b" ≠ "") as Hne by (vm_compute; discriminate).
  apply (proj2 (proj2 (proj2 (validate_format sampleURL _ Hne)))).
  vm_compute. reflexivity.
Defined.

(** C3 as stated fails: "https://example.com/a,b" has a host of two
    labels and characters of the specification's list only; on a platform
    whose parser accepts it, none of the three reasons of the
    specification holds, and the validation fails with [InvalidFormat]. *)
Lemma validate_format_counterexample :
  trim "https://example.com/a,b" ≠ "" ∧
  normalizeURL (trim "https://example.com/a,b") = "https://example.com/a,b" ∧
  hasLabelPair false (hostOf "https://example.com/a,b") = true ∧
  allChars specUrlChar "https://example.com/a,b" = true ∧
  (∀ URL_ctor : string → bool,
     URL_ctor "https://example.com/a,b" = true →
     specInvalidFormat URL_ctor "https://example.com/a,b" = false ∧
     validateAndNormalizeURL URL_ctor "https://example.com/a,b" = inr InvalidFormat).
Proof.
  assert (trim "https://example.com/a,b" ≠ "") as Hne by (vm_compute; discriminate).
  split; [done|]. split; [reflexivity|]. split; [reflexivity|]. split; [reflexivity|].
  intros URL_ctor Hparse. split.
  - unfold specInvalidFormat. rewrite Hparse. reflexivity.
  - rewrite validate_nonempty by done.
    change (normalizeURL (trim "https://example.com/a,b"))
      with "https://example.com/a,b".
    unfold isValidURL. rewrite Hparse.
    by replace (test false urlValidationRegex "https://example.com/a,b") with false
      by (vm_compute; reflexivity).
Qed.

(** The dot that the pattern asks for need not be in the host: on a
    platform whose parser accepts "https://a#b.c", whose host is "a", the
    validation succeeds. *)
Example validate_dot_in_fragment (URL_ctor : string → bool) :
  URL_ctor "https://a#b.c" = true →
  hostOf "https://a#b.c" = "a" ∧
  hasLabelPair false (hostOf "https://a#b.c") = false ∧
  validateAndNormalizeURL URL_ctor "https://a#b.c" = inl "https://a#b.c".
Proof.
  intros Hparse. split; [reflexivity|]. split; [reflexivity|].
  rewrite validate_nonempty by (vm_compute; discriminate).
  change (normalizeURL (trim "https://a#b.c")) with "https://a#b.c".
  unfold isValidURL. rewrite Hparse.
  by replace (test false urlValidationRegex "https://a#b.c") with true
    by (vm_compute; reflexivity).
Qed.

(** C10: an input whose trimmed form starts with "http://" or "https://"
    in some letter case but not in lower case is checked as it is, and
    fails with [InvalidFormat]. *)
Theorem validate_uppercase_scheme (URL_ctor : string → bool) (raw : string)
    (Hscheme : hasSchemeCI (trim raw) = true)
    (Hcase : hasScheme (trim raw) = false) :
  normalizeURL (trim raw) = trim raw ∧
  validateAndNormalizeURL URL_ctor raw = inr InvalidFormat.
Proof.
  assert (normalizeURL (trim raw) = trim raw) as Hnorm.
  { by rewrite normalizeURL_scheme, Hscheme. }
  split; [done|].
  rewrite validate_nonempty by by apply hasSchemeCI_nonempty.
  rewrite Hnorm. unfold isValidURL.
  destruct (test false urlValidationRegex (trim raw)) eqn:Hpattern.
  - apply test_urlValidationRegex_scheme in Hpattern. congruence.
  - by destruct (URL_ctor _).
Qed.

Lemma validate_uppercase_scheme_witness :
  sampleURL "HTTP://example.com" = true ∧
  normalizeURL (trim "HTTP://example.com") = "HTTP://example.com" ∧
  validateAndNormalizeURL sampleURL "HTTP://example.com" = inr InvalidFormat.
Proof.
  split; [vm_compute; reflexivity|].
  apply (validate_uppercase_scheme sampleURL "HTTP://example.com"); reflexivity.
Defined.

(** C9: when the validation fails, with [EmptyInput] or [InvalidFormat],
    [shortenURL] leaves the registry as it was, and the next input that is
    valid gets the code of the [nextId] of before. *)
Theorem shortenURL_invalid (URL_ctor : string → bool) (inputValue : string)
    (now : N) (st : shortener) (error : Error)
    (Hinvalid : validateAndNormalizeURL URL_ctor inputValue = inr error) :
  (error = EmptyInput ∨ error = InvalidFormat) ∧
  shortenURL URL_ctor inputValue now st = (st, inr error) ∧
  ∀ inputValue' now' url,
    validateAndNormalizeURL URL_ctor inputValue' = inl url →
    shortenURL URL_ctor inputValue' now'
      (shortenURL URL_ctor inputValue now st).1 =
    ((register url now' st).1, inl (encodeBase62 (nextId st))) ∧
    urlDatabase (register url now' st).1 !! encodeBase62 (nextId st) =
    Some (UrlData url 0 now' (nextId st)).
Proof.
  split; [|split].
  - unfold validateAndNormalizeURL in Hinvalid.
    destruct (String.eqb _ _); [left; congruence|].
    destruct (negb _); [right; congruence|done].
  - unfold shortenURL. by rewrite Hinvalid.
  - intros inputValue' now' url Hvalid.
    unfold shortenURL. rewrite Hinvalid, Hvalid. cbn [fst].
    split; [reflexivity|]. unfold register. cbn [fst urlDatabase].
    apply lookup_insert_eq.
Qed.

Lemma shortenURL_invalid_witness :
  shortenURL sampleURL "not a url" 5 initial = (initial, inr InvalidFormat).
Proof.
  assert (validateAndNormalizeURL sampleURL "not a url" = inr InvalidFormat) as H
    by (vm_compute; reflexivity).
  apply (shortenURL_invalid sampleURL "not a url" 5%N initial InvalidFormat H).
Defined.

(** * More on the code generator *)

Lemma encodeLoop_runs_out (fuel : nat) :
  ∀ (num : N) (encoded : string),
    (62 ^ N.of_nat fuel ≤ num)%N → encodeLoop fuel num encoded = None.
Proof.
  induction fuel as [|fuel IH]; intros num encoded Hle; cbn [encodeLoop].
  - change (62 ^ N.of_nat 0)%N with 1%N in Hle.
    by rewrite (proj2 (N.ltb_lt 0 num)) by lia.
  - rewrite Nat2N.inj_succ, N.pow_succ_r' in Hle.
    rewrite (proj2 (N.ltb_lt 0 num)) by lia.
    apply IH. apply N.div_le_lower_bound; lia.
Qed.

Lemma encodeLoop_returns (fuel : nat) :
  ∀ (num : N) (encoded : string),
    (num < 62 ^ N.of_nat fuel)%N → is_Some (encodeLoop fuel num encoded).
Proof.
  induction fuel as [|fuel IH]; intros num encoded Hlt; cbn [encodeLoop].
  - change (62 ^ N.of_nat 0)%N with 1%N in Hlt.
    rewrite (proj2 (N.ltb_ge 0 num)) by lia. eauto.
  - destruct (0 <? num)%N; [|eauto].
    apply IH. rewrite Nat2N.inj_succ, N.pow_succ_r' in Hlt.
    apply N.Div0.div_lt_upper_bound. lia.
Qed.

(** The exact loop returns within [fuel] turns exactly when
    [num < 62 ^ fuel]. *)
Lemma encodeBase62_fuel_turns (fuel : nat) (num : N) :
  encodeBase62_fuel fuel num =
  if (num <? 62 ^ N.of_nat fuel)%N then Some (encodeBase62 num) else None.
Proof.
  destruct (num <? 62 ^ N.of_nat fuel)%N eqn:Hlt.
  - apply N.ltb_lt in Hlt.
    destruct (decide (fuel ≤ S (N.to_nat (N.log2 num)))) as [Hle|Hgt].
    + pose proof (encodeBase62_fuel_enough _ num (le_n _)) as Hfull.
      unfold encodeBase62_fuel in *. destruct (num =? 0)%N; [done|].
      destruct (encodeLoop_returns fuel num "" Hlt) as [s Hs].
      rewrite Hs. rewrite <- Hfull. symmetry.
      by apply (encodeLoop_more_fuel fuel).
    + apply encodeBase62_fuel_enough. lia.
  - apply N.ltb_ge in Hlt. unfold encodeBase62_fuel.
    assert (0 < 62 ^ N.of_nat fuel)%N by (apply N.neq_0_lt_0, N.pow_nonzero; lia).
    rewrite (proj2 (N.eqb_neq num 0)) by lia.
    by apply encodeLoop_runs_out.
Qed.

(** X1: the loop of [encodeBase62] terminates on every number, within as
    many turns as the number has bits.  For [num] up to 2^53 it returns
    within [fuel] turns exactly when [num < 62 ^ fuel], that is after as
    many turns as [num] has base-62 digits, and what it returns is the
    code of [num]. *)
Theorem encodeBase62_turns (fuel : nat) (num : N) :
  encodeBase62_binary64_fuel (S (N.to_nat (N.log2 num))) num =
    Some (encodeBase62_binary64 num) ∧
  ((num ≤ 2 ^ 53)%N →
   encodeBase62_binary64_fuel fuel num =
     if (num <? 62 ^ N.of_nat fuel)%N then Some (encodeBase62_binary64 num)
     else None).
Proof.
  split; [by apply encodeBase62_binary64_fuel_enough|]. intros Hnum.
  rewrite encodeBase62_binary64_fuel_exact, encodeBase62_binary64_exact by done.
  apply encodeBase62_fuel_turns.
Qed.

Lemma encodeBase62_turns_witness :
  encodeBase62_binary64_fuel 2 3843 = Some "zz" ∧
  encodeBase62_binary64_fuel 2 3844 = None.
Proof.
  assert (3843 ≤ 2 ^ 53)%N as H1 by (by vm_compute).
  assert (3844 ≤ 2 ^ 53)%N as H2 by (by vm_compute).
  split.
  - exact (proj2 (encodeBase62_turns 2 3843) H1).
  - exact (proj2 (encodeBase62_turns 2 3844) H2).
Defined.

(** X2: for [num] up to 2^53, [encodeBase62 num] is the base-62 numeral
    of [num]: it is not empty, its characters are symbols of the
    alphabet, it denotes [num], and it starts with the symbol "0" only
    when it is "0" itself, the code of 0. *)
Theorem encodeBase62_numeral (num : N) (Hnum : (num ≤ 2 ^ 53)%N) :
  encodeBase62_binary64 num ≠ "" ∧
  allChars isDigit62 (encodeBase62_binary64 num) = true ∧
  decodeBase62 (encodeBase62_binary64 num) = num ∧
  (String.prefix "0" (encodeBase62_binary64 num) = true →
   encodeBase62_binary64 num = "0" ∧ num = 0%N).
Proof.
  rewrite encodeBase62_binary64_exact by done.
  destruct (encodeBase62_canonical num) as (Hall & Hval & c & code & Heq & Hhead).
  rewrite Heq in *. split; [done|]. split; [done|]. split; [done|].
  cbn [String.prefix]. destruct (ascii_dec "0" c) as [<-|]; [|by destruct code].
  intros _. destruct Hhead as [-> ->]; done.
Qed.

Lemma encodeBase62_numeral_witness :
  decodeBase62 (encodeBase62_binary64 (2 ^ 53)) = (2 ^ 53)%N.
Proof.
  assert (2 ^ 53 ≤ 2 ^ 53)%N as H by (by vm_compute).
  exact (proj1 (proj2 (proj2 (encodeBase62_numeral (2 ^ 53) H)))).
Defined.

(** X3: for [num] from 1 to 2^53, a code of [n] characters stands for a
    number in [62^(n-1), 62^n): the codes of the first 61 records have
    one character, those of the next 3782 two, and so on. *)
Theorem encodeBase62_length (num : N) (Hpos : (0 < num)%N)
    (Hnum : (num ≤ 2 ^ 53)%N) :
  (62 ^ N.of_nat (String.length (encodeBase62_binary64 num) - 1) ≤ num)%N ∧
  (num < 62 ^ N.of_nat (String.length (encodeBase62_binary64 num)))%N.
Proof.
  rewrite encodeBase62_binary64_exact by done.
  destruct (encodeBase62_canonical num) as (Hall & Hval & c & code & Heq & Hhead).
  pose proof (decodeBase62_bound _ Hall) as Hupper. rewrite Hval in Hupper.
  split; [|done]. rewrite Heq in Hval |- *. cbn [String.length].
  replace (S (String.length code) - 1) with (String.length code) by lia.
  rewrite decodeBase62_cons in Hval.
  assert (digitValue c ≠ 0%N) by (intros Hz; destruct (Hhead Hz); lia).
  nia.
Qed.

Lemma encodeBase62_length_witness :
  (62 ^ N.of_nat (String.length (encodeBase62_binary64 3843) - 1) ≤ 3843)%N ∧
  (3843 < 62 ^ N.of_nat (String.length (encodeBase62_binary64 3843)))%N.
Proof.
  assert (3843 ≤ 2 ^ 53)%N as H by (by vm_compute).
  apply (encodeBase62_length 3843%N); [reflexivity|exact H].
Defined.

(** * Short URLs *)

Lemma without_cons (sep c : ascii) (s : string) :
  without sep (String c s) = negb (Ascii.eqb c sep) && without sep s.
Proof. reflexivity. Qed.

Lemma without_app (sep : ascii) (s t : string) :
  without sep (s +:+ t) = without sep s && without sep t.
Proof. apply allChars_app. Qed.

Lemma concat_cons (sep x y : string) (parts : list string) :
  String.concat sep (x :: y :: parts) = x +:+ sep +:+ String.concat sep (y :: parts).
Proof. reflexivity. Qed.

Lemma includes_char (c : ascii) (s : string) :
  includes (String c "") s = negb (without c s).
Proof.
  induction s as [|x s IH]; [done|]. rewrite without_cons.
  cbn [includes String.prefix]. rewrite IH. destruct (ascii_dec c x) as [->|Hne].
  - rewrite Ascii.eqb_refl. by destruct s.
  - destruct (Ascii.eqb_spec x c) as [->|_]; [done|]. done.
Qed.

Lemma split_cons (sep : ascii) (s : string) : ∃ part parts, split sep s = part :: parts.
Proof.
  destruct s as [|c s]; cbn [split]; [eauto|].
  destruct (Ascii.eqb c sep); [eauto|]. destruct (split sep s); eauto.
Qed.

(** The parts have no separator, and joined by it they give [s] back. *)
Lemma split_parts (sep : ascii) (s : string) :
  Forall (λ part, without sep part = true) (split sep s) ∧
  String.concat (String sep "") (split sep s) = s.
Proof.
  induction s as [|c s [IHparts IHjoin]]; [by repeat constructor|].
  cbn [split]. destruct (Ascii.eqb c sep) eqn:Hc.
  - apply Ascii.eqb_eq in Hc as ->. split; [by constructor|].
    destruct (split_cons sep s) as (part & parts & Heq). rewrite Heq in *.
    by rewrite concat_cons, IHjoin.
  - destruct (split sep s) as [|part parts] eqn:Heq.
    { destruct (split_cons sep s) as (? & ? & ?). congruence. }
    apply Forall_cons in IHparts as [Hpart Hparts]. split.
    + constructor; [|done]. by rewrite without_cons, Hc, Hpart.
    + destruct parts as [|part' parts]; [by rewrite <- IHjoin|].
      rewrite concat_cons in *. by rewrite append_cons, IHjoin.
Qed.

Lemma concat_snoc (sep : string) (parts : list string) (part : string) :
  String.concat sep (parts ++ [part]) =
  match parts with
  | [] => part
  | _ :: _ => String.concat sep parts +:+ sep +:+ part
  end.
Proof.
  induction parts as [|p parts IH]; [done|].
  destruct parts as [|p' parts]; [done|].
  change ((p :: p' :: parts) ++ [part]) with (p :: (p' :: parts) ++ [part]).
  change ((p' :: parts) ++ [part]) with (p' :: parts ++ [part]) at 1.
  rewrite concat_cons. change (p' :: parts ++ [part]) with ((p' :: parts) ++ [part]).
  by rewrite IH, concat_cons, !append_assoc.
Qed.

Lemma split_without (sep : ascii) (s : string) :
  without sep s = true → split sep s = [s].
Proof.
  induction s as [|c s IH]; [done|]. rewrite without_cons. cbn [split].
  intros [Hc Hs]%andb_prop. apply negb_true_iff in Hc. by rewrite Hc, IH.
Qed.

Lemma split_app (sep : ascii) (s t : string) :
  without sep s = true → split sep (s +:+ String sep t) = s :: split sep t.
Proof.
  induction s as [|c s IH].
  - intros _. rewrite append_nil_l. cbn [split]. by rewrite Ascii.eqb_refl.
  - rewrite without_cons. intros [Hc Hs]%andb_prop. apply negb_true_iff in Hc.
    rewrite append_cons. cbn [split]. by rewrite Hc, IH.
Qed.

Lemma prefix_char (c : ascii) (s : string) :
  String.prefix (String c "") (String c s) = true.
Proof.
  cbn [String.prefix]. destruct (ascii_dec c c); [by destruct s|done].
Qed.

(** X4: [extractShortCode] never gives [undefined].  When the URL has a
    "#", it gives what stands between the first "#" and the next one (or
    the end); otherwise what follows the last "/" (the whole URL when it
    has none). *)
Theorem extractShortCode_parts (url : string) :
  ∃ shortCode, extractShortCode url = Some shortCode ∧
    if includes "#" url then
      without "#" shortCode = true ∧
      ∃ front back, url = front +:+ "#" +:+ shortCode +:+ back ∧
        without "#" front = true ∧
        (back = "" ∨ String.prefix "#" back = true)
    else
      without "/" shortCode = true ∧
      ∃ front, url = front +:+ shortCode ∧
        (front = "" ∨ ∃ front', front = front' +:+ "/").
Proof.
  unfold extractShortCode. destruct (includes "#" url) eqn:Hhash.
  - destruct (split_parts "#" url) as [Hparts Hjoin].
    destruct (split "#" url) as [|front [|shortCode parts]] eqn:Heq.
    + destruct (split_cons "#" url) as (? & ? & ?). congruence.
    + change (String.concat "#" [front]) with front in Hjoin. subst front.
      apply Forall_cons in Hparts as [Hno _].
      rewrite includes_char, Hno in Hhash. done.
    + apply Forall_cons in Hparts as [Hfront Hparts].
      apply Forall_cons in Hparts as [Hcode Hparts].
      exists shortCode. split; [done|]. split; [done|].
      rewrite concat_cons in Hjoin. destruct parts as [|part parts].
      * exists front, "". rewrite append_nil_r. eauto.
      * rewrite concat_cons in Hjoin.
        exists front, ("#" +:+ String.concat "#" (part :: parts)).
        split; [by rewrite <- Hjoin|]. split; [done|].
        right. rewrite append_cons. apply prefix_char.
  - destruct (split_parts "/" url) as [Hparts Hjoin].
    destruct (split_cons "/" url) as (p & ps & Heq).
    assert (∃ parts shortCode, split "/" url = parts ++ [shortCode])
      as (parts & shortCode & Hsnoc).
    { rewrite Heq. destruct (exists_last (l := p :: ps)) as (parts & x & ->); [done|eauto]. }
    rewrite Hsnoc in *. rewrite last_snoc. exists shortCode. split; [done|].
    apply Forall_app in Hparts as [_ [Hcode _]%Forall_cons]. split; [done|].
    rewrite concat_snoc in Hjoin. destruct parts as [|q parts].
    + exists "". eauto.
    + exists (String.concat "/" (q :: parts) +:+ "/").
      split; [by rewrite append_assoc|]. right. eauto.
Qed.

Lemma encodeBase62_without (sep : ascii) (num : N) :
  isDigit62 sep = false → without sep (encodeBase62 num) = true.
Proof.
  intros Hsep. destruct (encodeBase62_canonical num) as (Hall & _).
  unfold without. eapply allChars_impl, Hall. intros c Hc.
  apply negb_true_iff. destruct (Ascii.eqb_spec c sep) as [->|]; congruence.
Qed.

Lemma extractShortCode_shortUrlOf (origin shortCode : string) :
  without "#" origin = true → without "#" shortCode = true →
  extractShortCode (shortUrlOf origin shortCode) = Some shortCode.
Proof.
  intros Horigin Hcode. unfold extractShortCode, shortUrlOf.
  assert (origin +:+ "/#" +:+ shortCode = (origin +:+ "/") +:+ String "#" shortCode)
    as -> by by rewrite append_assoc.
  assert (without "#" (origin +:+ "/") = true) as Hfront
    by by rewrite without_app, Horigin.
  rewrite includes_char, without_app, Hfront, without_cons.
  rewrite Ascii.eqb_refl. cbn [negb andb].
  by rewrite split_app, split_without.
Qed.

(** X5: the short URL shown after a registration leads back to the new
    record.  With an origin that has no "#", [extractShortCode] gives the
    code back from the short URL; the test button on that URL and a
    change of the hash to "#" and the code both do what
    [redirectToOriginal] does on the code, and open the destination just
    registered, now with one click. *)
Theorem shortUrl_round_trip (origin url : string) (now : N) (st : shortener)
    (Horigin : without "#" origin = true) :
  let st1 := (register url now st).1 in
  let shortCode := (register url now st).2 in
  extractShortCode (shortUrlOf origin shortCode) = Some shortCode ∧
  testButton (shortUrlOf origin shortCode) st1 = redirectToOriginal shortCode st1 ∧
  handleHashChange ("#" +:+ shortCode) st1 =
    ((redirectToOriginal shortCode st1).1, Some (redirectToOriginal shortCode st1).2) ∧
  (redirectToOriginal shortCode st1).2 = Some (UrlData url 1 now (nextId st)).
Proof.
  cbn zeta. set (st1 := (register url now st).1).
  assert ((register url now st).2 = encodeBase62 (nextId st)) as -> by done.
  set (shortCode := encodeBase62 (nextId st)).
  assert (extractShortCode (shortUrlOf origin shortCode) = Some shortCode) as Hextract.
  { apply extractShortCode_shortUrlOf; [done|]. by apply encodeBase62_without. }
  assert (urlDatabase st1 !! shortCode = Some (UrlData url 0 now (nextId st))) as Hnew.
  { unfold st1, register. cbn [fst urlDatabase]. apply lookup_insert_eq. }
  split; [done|]. split; [|split].
  - unfold testButton. by rewrite Hextract.
  - unfold handleHashChange.
    destruct (encodeBase62_canonical (nextId st)) as (_ & _ & c & code & Heq & _).
    fold shortCode in Heq. rewrite Heq. rewrite append_cons, append_nil_l.
    cbn [String.eqb String.length dropFirst negb andb Nat.ltb Nat.leb].
    rewrite <- Heq, Hnew. by destruct (redirectToOriginal shortCode st1).
  - by rewrite (redirect_stored _ _ _ Hnew).
Qed.

Lemma shortUrl_round_trip_witness :
  extractShortCode (shortUrlOf "https://sho.rt" "1") = Some "1" ∧
  (testButton (shortUrlOf "https://sho.rt" "1")
     (register "https://a.com" 7 initial).1).2 =
  Some (UrlData "https://a.com" 1 7 1).
Proof.
  assert (without "#" "https://sho.rt" = true) as H by reflexivity.
  pose proof (shortUrl_round_trip "https://sho.rt" "https://a.com" 7%N initial H)
    as (H1 & H2 & _ & H4).
  split; [exact H1|]. exact (eq_trans (f_equal snd H2) H4).
Defined.

(** * The page *)

Lemma redirect_missing (shortCode : string) (st : shortener) :
  urlDatabase st !! shortCode = None → redirectToOriginal shortCode st = (st, None).
Proof. intros H. unfold redirectToOriginal. by rewrite H. Qed.

(** X15: a hash never brings the alert of [redirectToOriginal]:
    [handleHashChange] calls it for a stored code only, and then one click
    is added to that record; for any other hash, the empty one and "#"
    alone included, nothing changes.  On a page just loaded no hash does
    anything, the registry being empty. *)
Theorem handleHashChange_quiet (hash : string) (st : shortener) :
  (handleHashChange hash st).2 ≠ Some None ∧
  match urlDatabase st !! dropFirst hash with
  | Some data =>
      (2 ≤ String.length hash →
       handleHashChange hash st =
       (Shortener (<[dropFirst hash := click data]> (urlDatabase st)) (nextId st),
        Some (Some (click data)))) ∧
      (String.length hash < 2 → handleHashChange hash st = (st, None))
  | None => handleHashChange hash st = (st, None)
  end ∧
  handleHashChange hash initial = (initial, None).
Proof.
  assert (∀ st', handleHashChange hash st' =
            if decide (2 ≤ String.length hash) then
              match urlDatabase st' !! dropFirst hash with
              | Some data =>
                  (Shortener (<[dropFirst hash := click data]> (urlDatabase st'))
                             (nextId st'),
                   Some (Some (click data)))
              | None => (st', None)
              end
            else (st', None)) as Hcases.
  { intros st'. unfold handleHashChange.
    destruct hash as [|c [|d hash]]; [done..|].
    cbn [String.eqb String.length negb andb Nat.ltb Nat.leb].
    rewrite decide_True by (cbn [String.length]; lia).
    destruct (urlDatabase st' !! _) as [data|] eqn:Hlook; [|done].
    by rewrite (redirect_stored _ _ _ Hlook). }
  split; [|split].
  - rewrite Hcases. destruct (decide _); [|done].
    by destruct (urlDatabase st !! _).
  - rewrite Hcases. destruct (urlDatabase st !! _) as [data|].
    + split; intros Hlen; [by rewrite decide_True|by rewrite decide_False by lia].
    + by destruct (decide _).
  - rewrite Hcases. destruct (decide _); [|done].
    unfold initial. cbn [urlDatabase]. by rewrite lookup_empty.
Qed.

(** An event does what its registry operations do. *)
Lemma react_operations (URL_ctor : string → bool) (st : shortener) (e : event) :
  react URL_ctor st e = foldl step st (operationsOf URL_ctor st e).
Proof.
  destruct e as [inputValue now|display|shortCode|hash]; cbn [react operationsOf].
  - unfold shortenURL. by destruct (validateAndNormalizeURL _ _).
  - unfold testButton. by destruct (extractShortCode _).
  - done.
  - unfold handleHashChange. destruct (_ && _); [|done]. cbn [foldl step].
    destruct (urlDatabase st !! dropFirst hash) as [data|] eqn:Hlook.
    + by destruct (redirectToOriginal _ _).
    + by rewrite redirect_missing.
Qed.

Lemma page_snoc (URL_ctor : string → bool) (events : list event) (e : event) :
  page URL_ctor (events ++ [e]) = react URL_ctor (page URL_ctor events) e.
Proof. unfold page. by rewrite foldl_snoc. Qed.

Lemma page_app (URL_ctor : string → bool) (events events' : list event) :
  page URL_ctor (events ++ events') =
  foldl (react URL_ctor) (page URL_ctor events) events'.
Proof. unfold page. by rewrite foldl_app. Qed.

Lemma reachable_steps (ops : list operation) :
  ∀ st, reachable st → reachable (foldl step st ops).
Proof.
  induction ops as [|o ops IH]; intros st Hst; [done|].
  cbn [foldl]. by apply IH, reachable_step.
Qed.

Lemma reachable_reacts (URL_ctor : string → bool) (events : list event) :
  ∀ st, reachable st → reachable (foldl (react URL_ctor) st events).
Proof.
  induction events as [|e events IH]; intros st Hst; [done|].
  cbn [foldl]. apply IH. rewrite react_operations. by apply reachable_steps.
Qed.

Lemma page_reachable (URL_ctor : string → bool) (events : list event) :
  reachable (page URL_ctor events).
Proof.
  induction events as [|e events IH] using rev_ind; [by exists []|].
  rewrite page_snoc, react_operations. by apply reachable_steps.
Qed.

(** ** Records are kept *)

Lemma keeps_refl (st : shortener) : keeps st st.
Proof. intros shortCode data H. exists data. repeat split; (done || lia). Qed.

Lemma keeps_trans (st1 st2 st3 : shortener) :
  keeps st1 st2 → keeps st2 st3 → keeps st1 st3.
Proof.
  intros H12 H23 shortCode data H1.
  destruct (H12 _ _ H1) as (data2 & Hdata2 & ? & ? & ? & ?).
  destruct (H23 _ _ Hdata2) as (data3 & Hdata3 & ? & ? & ? & ?).
  exists data3. repeat split; (done || congruence || lia).
Qed.

Lemma keeps_step (st : shortener) (o : operation) :
  wellFormed st → keeps st (step st o).
Proof.
  intros Hwf shortCode data Hlook.
  destruct o as [url now|visited]; cbn [step].
  - unfold register. cbn [fst urlDatabase]. exists data.
    rewrite lookup_insert_ne; [repeat split; (done || lia)|].
    intros <-. pose proof (wellFormed_fresh st Hwf). congruence.
  - destruct (urlDatabase st !! visited) as [data'|] eqn:Hvisited.
    + rewrite (redirect_stored _ _ _ Hvisited). cbn [fst urlDatabase].
      destruct (decide (visited = shortCode)) as [->|Hne].
      * rewrite lookup_insert_eq. exists (click data').
        assert (data' = data) as -> by congruence.
        unfold click. cbn [originalUrl createdAt id clickCount].
        repeat split; (done || lia).
      * rewrite lookup_insert_ne by done. exists data. repeat split; (done || lia).
    + rewrite redirect_missing by done. by apply keeps_refl.
Qed.

Lemma keeps_steps (ops : list operation) :
  ∀ st, wellFormed st → keeps st (foldl step st ops).
Proof.
  induction ops as [|o ops IH]; intros st Hwf; cbn [foldl]; [apply keeps_refl|].
  eapply keeps_trans; [by apply keeps_step|]. by apply IH, wellFormed_step.
Qed.

Lemma keeps_reacts (URL_ctor : string → bool) (events : list event) :
  ∀ st, reachable st → keeps st (foldl (react URL_ctor) st events).
Proof.
  induction events as [|e events IH]; intros st Hst; cbn [foldl]; [apply keeps_refl|].
  eapply keeps_trans; [|apply IH].
  - rewrite react_operations. by apply keeps_steps, reachable_wellFormed.
  - rewrite react_operations. by apply reachable_steps.
Qed.

(** X6: nothing that happens on the page removes a record or changes
    its destination, its time of creation or its [id]: whatever was stored
    after some events is still stored under the same code after any
    further events, with at least as many clicks. *)
Theorem page_keeps (URL_ctor : string → bool) (events events' : list event) :
  keeps (page URL_ctor events) (page URL_ctor (events ++ events')).
Proof. rewrite page_app. apply keeps_reacts, page_reachable. Qed.

(** ** Stored destinations are valid *)

Lemma validate_accepts (URL_ctor : string → bool) (raw url : string) :
  validateAndNormalizeURL URL_ctor raw = inl url →
  trim raw ≠ "" ∧ url = normalizeURL (trim raw) ∧ isValidURL URL_ctor url = true.
Proof.
  unfold validateAndNormalizeURL.
  destruct (String.eqb_spec (trim raw) "") as [|Hne]; [done|].
  destruct (isValidURL URL_ctor (normalizeURL (trim raw))) eqn:Hvalid; [|done].
  cbn [negb]. by intros [= <-].
Qed.

Lemma isValidURL_facts (URL_ctor : string → bool) (url : string) :
  isValidURL URL_ctor url = true →
  URL_ctor url = true ∧ test false urlValidationRegex url = true ∧
  hasScheme url = true ∧ allChars (inClass false tailClass) url = true.
Proof.
  unfold isValidURL. destruct (URL_ctor url); [|done]. intros Hpattern.
  split; [done|]. split; [done|].
  split; [by apply test_urlValidationRegex_scheme|by apply test_urlValidationRegex_chars].
Qed.

Lemma allValid_step (URL_ctor : string → bool) (st : shortener) (o : operation) :
  match o with
  | Register url _ => isValidURL URL_ctor url = true
  | Resolve _ => True
  end →
  allValid URL_ctor st → allValid URL_ctor (step st o).
Proof.
  intros Ho Hst shortCode data. destruct o as [url now|visited]; cbn [step].
  - unfold register. cbn [fst urlDatabase].
    destruct (decide (encodeBase62 (nextId st) = shortCode)) as [<-|Hne].
    + rewrite lookup_insert_eq. by intros [= <-].
    + rewrite lookup_insert_ne by done. apply Hst.
  - destruct (urlDatabase st !! visited) as [data'|] eqn:Hvisited.
    + rewrite (redirect_stored _ _ _ Hvisited). cbn [fst urlDatabase].
      destruct (decide (visited = shortCode)) as [->|Hne].
      * rewrite lookup_insert_eq. intros [= <-]. exact (Hst _ _ Hvisited).
      * rewrite lookup_insert_ne by done. apply Hst.
    + rewrite redirect_missing by done. apply Hst.
Qed.

Lemma allValid_react (URL_ctor : string → bool) (st : shortener) (e : event) :
  allValid URL_ctor st → allValid URL_ctor (react URL_ctor st e).
Proof.
  intros Hst. rewrite react_operations.
  destruct e as [inputValue now|display|shortCode|hash]; cbn [operationsOf].
  - destruct (validateAndNormalizeURL URL_ctor inputValue) as [url|] eqn:Hv; [|done].
    apply validate_accepts in Hv as (_ & _ & Hvalid).
    by apply (allValid_step _ _ (Register url now)).
  - destruct (extractShortCode display) as [shortCode|]; [|done].
    by apply (allValid_step _ _ (Resolve shortCode)).
  - by apply (allValid_step _ _ (Resolve shortCode)).
  - destruct (_ && _); [|done]. by apply (allValid_step _ _ (Resolve _)).
Qed.

Lemma page_allValid (URL_ctor : string → bool) (events : list event) :
  allValid URL_ctor (page URL_ctor events).
Proof.
  induction events as [|e events IH] using rev_ind.
  - intros shortCode data. unfold page. cbn [foldl initial urlDatabase].
    by rewrite lookup_empty.
  - rewrite page_snoc. by apply allValid_react.
Qed.

Lemma tailClass_plain (c : ascii) :
  inClass false tailClass c = true →
  negb (isWhiteSpace c) && negb (existsb (Ascii.eqb c) htmlDelimiters) = true.
Proof. destruct c as [[] [] [] [] [] [] [] []]; vm_compute; done. Qed.

(** X7: whatever happened on the page, every stored destination passed
    the validation: the platform's parser accepts it, it starts with
    "http://" or "https://" in lower case, and it has letters, digits and
    the characters [-()@:%_+.~#?&/=] only, so no whitespace, quote or
    angle bracket: the rows of the history, which put it in attributes as
    it is, keep their shape.  It is stored under the code of its [id]. *)
Theorem page_destinations_valid (URL_ctor : string → bool) (events : list event)
    (shortCode : string) (data : urlData)
    (Hstored : urlDatabase (page URL_ctor events) !! shortCode = Some data) :
  URL_ctor (originalUrl data) = true ∧
  hasScheme (originalUrl data) = true ∧
  allChars (inClass false tailClass) (originalUrl data) = true ∧
  allChars (λ c, negb (isWhiteSpace c) && negb (existsb (Ascii.eqb c) htmlDelimiters))
    (originalUrl data) = true ∧
  shortCode = encodeBase62 (id data).
Proof.
  pose proof (page_allValid URL_ctor events _ _ Hstored) as Hvalid.
  apply isValidURL_facts in Hvalid as (Hparse & _ & Hscheme & Hchars).
  split; [done|]. split; [done|]. split; [done|].
  split; [by eapply allChars_impl, Hchars; apply tailClass_plain|].
  pose proof (reachable_wellFormed _ (page_reachable URL_ctor events)) as (_ & Hkeys & _).
  by destruct (Hkeys _ _ Hstored).
Qed.

Lemma page_destinations_valid_witness :
  hasScheme "https://example.com" = true ∧ "1" = encodeBase62 1.
Proof.
  assert (urlDatabase (page sampleURL [Submit " example.com" 3; TestRow "1"]) !! "1"
          = Some (UrlData "https://example.com" 1 3 1)) as H by (vm_compute; reflexivity).
  pose proof (page_destinations_valid sampleURL _ _ _ H) as (_ & H2 & _ & _ & H4).
  split; [exact H2|exact H4].
Defined.

(** ** Codes follow the accepted submissions *)

Lemma page_counts_from (URL_ctor : string → bool) (events : list event) :
  ∀ st, reachable st →
    nextId (foldl (react URL_ctor) st events) =
      (nextId st + accepted URL_ctor events)%N ∧
    totalUrls (updateStats (foldl (react URL_ctor) st events)) =
      (totalUrls (updateStats st) + accepted URL_ctor events)%N.
Proof.
  induction events as [|e events IH]; intros st Hst; cbn [foldl accepted].
  - split; lia.
  - assert (reachable (react URL_ctor st e)) as Hnext.
    { rewrite react_operations. by apply reachable_steps. }
    destruct (IH _ Hnext) as [-> ->].
    pose proof (reachable_wellFormed st Hst) as Hwf.
    rewrite react_operations.
    pose proof (stats_session_from (operationsOf URL_ctor st e) st Hwf) as Hstats.
    pose proof (nextId_session_from (operationsOf URL_ctor st e) st) as Hid.
    rewrite Hstats, Hid. cbn [totalUrls].
    assert (tally registers st (operationsOf URL_ctor st e) =
            if isAccepted URL_ctor e then 1 else 0)%N as ->; [|split; lia].
    destruct e as [inputValue now|display|shortCode|hash]; cbn [operationsOf isAccepted].
    + by destruct (validateAndNormalizeURL _ _).
    + by destruct (extractShortCode _).
    + done.
    + by destruct (_ && _).
Qed.

(** X8: the codes follow the accepted submissions and nothing else.
    After any events, [nextId] is one more than the number of accepted
    submissions, which is also the number of records; so the next
    accepted submission gets the code of that number: rejected
    submissions, tests and hash changes use up no code. *)
Theorem page_codes (URL_ctor : string → bool) (events : list event) :
  nextId (page URL_ctor events) = (1 + accepted URL_ctor events)%N ∧
  totalUrls (updateStats (page URL_ctor events)) = accepted URL_ctor events ∧
  ∀ inputValue now url,
    validateAndNormalizeURL URL_ctor inputValue = inl url →
    (shortenURL URL_ctor inputValue now (page URL_ctor events)).2 =
    inl (encodeBase62 (1 + accepted URL_ctor events)).
Proof.
  destruct (page_counts_from URL_ctor events initial) as [Hid Hurls]; [by exists []|].
  fold (page URL_ctor events) in Hid, Hurls.
  split; [done|]. split; [by rewrite Hurls|].
  intros inputValue now url Hv. unfold shortenURL. rewrite Hv.
  unfold register. cbn [snd]. by rewrite Hid.
Qed.

(** X9: no destination is recognised as already stored.  Two
    submissions of the same valid input, whatever happens in between,
    give two codes and two records, both with the same destination. *)
Theorem shortenURL_twice (URL_ctor : string → bool) (events between : list event)
    (inputValue url : string) (now now' : N)
    (Hvalid : validateAndNormalizeURL URL_ctor inputValue = inl url) :
  let st := page URL_ctor events in
  let first := shortenURL URL_ctor inputValue now st in
  let st' := foldl (react URL_ctor) first.1 between in
  let second := shortenURL URL_ctor inputValue now' st' in
  ∃ code code' data data',
    first.2 = inl code ∧ second.2 = inl code' ∧ code ≠ code' ∧
    urlDatabase second.1 !! code = Some data ∧
    urlDatabase second.1 !! code' = Some data' ∧
    originalUrl data = url ∧ originalUrl data' = url.
Proof.
  cbn zeta. set (st := page URL_ctor events).
  assert (shortenURL URL_ctor inputValue now st =
          ((register url now st).1, inl (encodeBase62 (nextId st)))) as ->.
  { unfold shortenURL. by rewrite Hvalid. }
  cbn [fst snd]. set (st1 := (register url now st).1).
  set (st' := foldl (react URL_ctor) st1 between).
  assert (shortenURL URL_ctor inputValue now' st' =
          ((register url now' st').1, inl (encodeBase62 (nextId st')))) as ->.
  { unfold shortenURL. by rewrite Hvalid. }
  cbn [fst snd].
  assert (reachable st1) as Hst1.
  { apply (reachable_step st (Register url now)), page_reachable. }
  assert (urlDatabase st1 !! encodeBase62 (nextId st) =
          Some (UrlData url 0 now (nextId st))) as Hnew.
  { unfold st1, register. cbn [fst urlDatabase]. apply lookup_insert_eq. }
  destruct (keeps_reacts URL_ctor between st1 Hst1 _ _ Hnew)
    as (data & Hdata & Hurl & _).
  fold st' in Hdata.
  assert (reachable st') as Hst' by by apply reachable_reacts.
  pose proof (wellFormed_fresh st' (reachable_wellFormed st' Hst')) as Hfresh.
  exists (encodeBase62 (nextId st)), (encodeBase62 (nextId st')), data,
         (UrlData url 0 now' (nextId st')).
  split; [done|]. split; [done|].
  assert (encodeBase62 (nextId st) ≠ encodeBase62 (nextId st')) as Hne by congruence.
  split; [done|]. unfold register. cbn [fst urlDatabase].
  rewrite lookup_insert_ne by done. rewrite lookup_insert_eq. done.
Qed.

Lemma shortenURL_twice_witness :
  ∃ code code' : string, code ≠ code' ∧
    is_Some (urlDatabase (page sampleURL [Submit "example.com" 1; TestRow "1";
                                          Submit "example.com" 2]) !! code) ∧
    is_Some (urlDatabase (page sampleURL [Submit "example.com" 1; TestRow "1";
                                          Submit "example.com" 2]) !! code').
Proof.
  assert (validateAndNormalizeURL sampleURL "example.com" = inl "https://example.com")
    as H by (vm_compute; reflexivity).
  destruct (shortenURL_twice sampleURL [] [TestRow "1"] "example.com"
              "https://example.com" 1%N 2%N H)
    as (code & code' & data & data' & _ & _ & Hne & H1 & H2 & _).
  exists code, code'. split; [exact Hne|].
  split; [exists data; exact H1|exists data'; exact H2].
Defined.

(** * More on the validator

    ** [trim] *)

Lemma trimStart_clean (s : string) : startsClean (trimStart s).
Proof.
  induction s as [|c s IH]; [done|]. cbn [trimStart].
  by destruct (isWhiteSpace c) eqn:Hc.
Qed.

Lemma trimStart_id (s : string) : startsClean s → trimStart s = s.
Proof. destruct s as [|c s]; [done|]. cbn [startsClean trimStart]. by intros ->. Qed.

Lemma trimEnd_clean (s : string) : startsClean s → startsClean (trimEnd s).
Proof.
  destruct s as [|c s]; [done|]. cbn [startsClean trimEnd]. intros Hc.
  rewrite Hc. by destruct (trimEnd s).
Qed.

Lemma trimEnd_trimEnd (s : string) : trimEnd (trimEnd s) = trimEnd s.
Proof.
  induction s as [|c s IH]; [done|]. cbn [trimEnd].
  destruct (trimEnd s) as [|d t] eqn:Ht.
  - destruct (isWhiteSpace c) eqn:Hc; [done|]. cbn [trimEnd]. by rewrite Hc.
  - cbn [trimEnd] in *. by rewrite IH.
Qed.

Lemma trim_trim (s : string) : trim (trim s) = trim s.
Proof.
  unfold trim. rewrite trimStart_id by apply trimEnd_clean, trimStart_clean.
  apply trimEnd_trimEnd.
Qed.

Lemma trimEnd_id (s : string) : noWhiteSpace s = true → trimEnd s = s.
Proof.
  unfold noWhiteSpace. induction s as [|c s IH]; [done|]. cbn [allChars trimEnd].
  intros [Hc Hs]%andb_prop. apply negb_true_iff in Hc. rewrite IH, Hc by done.
  by destruct s.
Qed.

Lemma trim_id (s : string) : noWhiteSpace s = true → trim s = s.
Proof.
  intros Hs. unfold trim. rewrite trimStart_id; [by apply trimEnd_id|].
  destruct s as [|c s]; [done|]. unfold noWhiteSpace in Hs. cbn [allChars] in Hs.
  apply andb_prop in Hs as [Hc _]. by apply negb_true_iff in Hc.
Qed.

(** ** Whitespace *)

Lemma tailClass_not_space (c : ascii) :
  inClass false tailClass c = true → negb (isWhiteSpace c) = true.
Proof. destruct c as [[] [] [] [] [] [] [] []]; vm_compute; done. Qed.

Lemma tailClass_noWhiteSpace (s : string) :
  allChars (inClass false tailClass) s = true → noWhiteSpace s = true.
Proof. apply allChars_impl, tailClass_not_space. Qed.

Lemma normalizeURL_chars (P : ascii → bool) (url : string) :
  allChars P (normalizeURL url) = true → allChars P url = true.
Proof.
  rewrite normalizeURL_scheme. destruct (hasSchemeCI url); [done|].
  rewrite allChars_app. by intros [_ ?]%andb_prop.
Qed.

(** X10: only the trimmed input counts, and whitespace inside it is
    refused: the validation of an input is the validation of its trimmed
    form, and when the trimmed form still has a whitespace character the
    result is [InvalidFormat]. *)
Theorem validate_whitespace (URL_ctor : string → bool) (raw : string) :
  validateAndNormalizeURL URL_ctor raw =
    validateAndNormalizeURL URL_ctor (trim raw) ∧
  (noWhiteSpace (trim raw) = false →
   validateAndNormalizeURL URL_ctor raw = inr InvalidFormat).
Proof.
  split.
  - unfold validateAndNormalizeURL. by rewrite trim_trim.
  - intros Hspace.
    destruct (validateAndNormalizeURL URL_ctor raw) as [url|error] eqn:Hv.
    + apply validate_accepts in Hv as (_ & -> & Hvalid).
      apply isValidURL_facts in Hvalid as (_ & _ & _ & Hchars).
      apply normalizeURL_chars, tailClass_noWhiteSpace in Hchars. congruence.
    + unfold validateAndNormalizeURL in Hv.
      destruct (String.eqb_spec (trim raw) "") as [Hempty|_].
      * by rewrite Hempty in Hspace.
      * destruct (negb _); congruence.
Qed.

Lemma validate_whitespace_witness :
  validateAndNormalizeURL sampleURL " a b.com " = inr InvalidFormat.
Proof.
  apply (proj2 (validate_whitespace sampleURL " a b.com ")). reflexivity.
Defined.

(** ** The scheme *)

Lemma prefix_startsWithCI (w : string) :
  ∀ s, String.prefix w s = true → startsWithCI w s = true.
Proof.
  induction w as [|c w IH]; intros [|x s]; cbn [String.prefix startsWithCI]; try done.
  destruct (ascii_dec c x) as [->|]; [|done].
  intros Hs. by rewrite Ascii.eqb_refl, IH.
Qed.

Lemma hasScheme_hasSchemeCI (url : string) :
  hasScheme url = true → hasSchemeCI url = true.
Proof.
  unfold hasScheme, hasSchemeCI.
  intros [H|H]%orb_prop; apply prefix_startsWithCI in H; rewrite H;
    [done|apply orb_true_r].
Qed.

(** X11: [normalizeURL] gives a string that starts with the scheme in
    some letter case, which is the input or "https://" and the input; its
    own results it leaves as they are. *)
Theorem normalizeURL_idempotent (url : string) :
  hasSchemeCI (normalizeURL url) = true ∧
  (normalizeURL url = url ∨ normalizeURL url = "https://" +:+ url) ∧
  normalizeURL (normalizeURL url) = normalizeURL url.
Proof.
  assert (hasSchemeCI (normalizeURL url) = true) as Hscheme.
  { rewrite normalizeURL_scheme. destruct (hasSchemeCI url) eqn:H; [done|].
    unfold hasSchemeCI. rewrite !append_cons, append_nil_l.
    cbn [startsWithCI]. rewrite !Ascii.eqb_refl. cbn [andb]. by destruct url. }
  split; [done|]. split.
  - rewrite normalizeURL_scheme. destruct (hasSchemeCI url); eauto.
  - by rewrite (normalizeURL_scheme (normalizeURL url)), Hscheme.
Qed.

(** X12: the validation accepts its own results and leaves them as they
    are: a destination that it returned is returned again when it is
    submitted as it is. *)
Theorem validate_idempotent (URL_ctor : string → bool) (raw url : string)
    (Haccepted : validateAndNormalizeURL URL_ctor raw = inl url) :
  validateAndNormalizeURL URL_ctor url = inl url.
Proof.
  apply validate_accepts in Haccepted as (_ & _ & Hvalid).
  pose proof (isValidURL_facts _ _ Hvalid) as (_ & _ & Hscheme & Hchars).
  assert (trim url = url) as Htrim by by apply trim_id, tailClass_noWhiteSpace.
  assert (url ≠ "") as Hne by (intros ->; done).
  rewrite validate_nonempty by by rewrite Htrim.
  rewrite Htrim, normalizeURL_scheme, (hasScheme_hasSchemeCI _ Hscheme).
  by rewrite Hvalid.
Qed.

Lemma validate_idempotent_witness :
  validateAndNormalizeURL sampleURL "https://example.com" = inl "https://example.com".
Proof.
  apply (validate_idempotent sampleURL " example.com "). vm_compute. reflexivity.
Defined.

(** ** The dot *)

Lemma eat_rest (w : string) :
  ∀ p q, eat false w p = Some q → rest p = w +:+ rest q.
Proof.
  induction w as [|c w IH]; intros [b s] q; cbn [eat rest].
  - by intros [= <-].
  - destruct s as [|x s]; [done|]. cbn [canonicalize andb].
    destruct (Ascii.eqb_spec x c) as [->|]; [|done].
    intros Hq%IH. cbn [rest] in Hq. by rewrite append_cons, Hq.
Qed.

(** One round or more of a class reads a character of the class, then
    characters of the class. *)
Lemma run_Rep1_Cls (hi : nat) (ranges : list (ascii * ascii)) (p q : pos) :
  q ∈ run false (Rep 1 hi (Cls ranges)) p →
  ∃ x w, rest p = String x (w +:+ rest q) ∧
    inClass false ranges x = true ∧ allChars (inClass false ranges) w = true.
Proof.
  cbn [run exactly]. intros (m & Hm & Hmq)%(upTo_span _ _ (run_span (Cls ranges))).
  cbn [mbind list_bind run] in Hm. rewrite app_nil_r in Hm.
  destruct (rest p) as [|x s] eqn:Hp; [by apply elem_of_nil in Hm|].
  destruct (inClass false ranges x) eqn:Hx; [|by apply elem_of_nil in Hm].
  apply list_elem_of_singleton in Hm as ->.
  destruct Hmq as (w & Hw & Hall). cbn [rest] in Hw. exists x, w. by rewrite Hw.
Qed.

Lemma wwwClass (c : ascii) :
  reads (Opt (cat (lit "www."))) c = true → inClass false hostClass c = true.
Proof. destruct c as [[] [] [] [] [] [] [] []]; vm_compute; done. Qed.

Lemma urlValidationRegex_dot (url : string) :
  test false urlValidationRegex url = true →
  ∃ scheme front back,
    url = scheme +:+ front +:+ "." +:+ back ∧
    (scheme = "http://" ∨ scheme = "https://") ∧
    front ≠ "" ∧ allChars (inClass false hostClass) front = true ∧
    ∃ c back', back = String c back' ∧ inClass false tldClass c = true.
Proof.
  unfold urlValidationRegex. change ([Bol] ++ ?l) with (Bol :: l).
  rewrite test_anchored. change (Bol :: ?l) with ([Bol] ++ l).
  intros [q Hq]%matchesAt_elem. rewrite run_scheme in Hq. cbn [before] in Hq.
  assert (∃ scheme q0, (scheme = "http://" ∨ scheme = "https://") ∧
            url = scheme +:+ rest q0 ∧
            q ∈ run false (cat [Opt (cat (lit "www.")); Rep 1 256 (Cls hostClass);
                                Chr "."; Rep 1 6 (Cls tldClass); WordB;
                                Star (Cls tailClass); Eol]) q0)
    as (scheme & q0 & Hscheme & Hurl & Hrun).
  { apply elem_of_app in Hq as [Hq|Hq].
    - destruct (eat false "https://" _) as [q0|] eqn:Heat; [|by apply elem_of_nil in Hq].
      apply eat_rest in Heat. eauto 10.
    - destruct (eat false "http://" _) as [q0|] eqn:Heat; [|by apply elem_of_nil in Hq].
      apply eat_rest in Heat. eauto 10. }
  clear Hq. rewrite run_cat_cons in Hrun.
  apply list_elem_of_bind in Hrun as (m1 & Hrun & Hwww).
  apply run_span in Hwww as (w1 & Hw1 & Hall1).
  rewrite run_cat_cons in Hrun.
  apply list_elem_of_bind in Hrun as (m2 & Hrun & Hhost).
  apply run_Rep1_Cls in Hhost as (x & w2 & Hw2 & Hx & Hall2).
  rewrite run_cat_cons in Hrun.
  apply list_elem_of_bind in Hrun as (m3 & Hrun & Hdot).
  rewrite run_Chr in Hdot.
  destruct (eat false "." m2) as [m3'|] eqn:Heat; [|by apply elem_of_nil in Hdot].
  apply list_elem_of_singleton in Hdot as ->. apply eat_rest in Heat.
  rewrite run_cat_cons in Hrun.
  apply list_elem_of_bind in Hrun as (m4 & _ & Htld).
  apply run_Rep1_Cls in Htld as (y & w3 & Hw3 & Hy & _).
  exists scheme, (w1 +:+ String x w2), (rest m3').
  split; [|split; [done|split; [|split]]].
  - rewrite Hurl, Hw1, Hw2, Heat. by rewrite (append_assoc w1), append_cons.
  - by destruct w1.
  - rewrite allChars_app. cbn [allChars]. rewrite Hx, Hall2, andb_true_r.
    eapply allChars_impl, Hall1. apply wwwClass.
  - eauto.
Qed.

(** X13: an accepted destination has a dot in its first stretch: after
    "http://" or "https://" come one or more characters of
    [-a-zA-Z0-9@:%._+~#=], then a dot, then a letter, a digit or a
    parenthesis.  So a destination whose first "/" or "?" comes before
    any dot, as in "http://localhost/a.b", is refused. *)
Theorem validate_dot (URL_ctor : string → bool) (raw url : string)
    (Haccepted : validateAndNormalizeURL URL_ctor raw = inl url) :
  ∃ scheme front back,
    url = scheme +:+ front +:+ "." +:+ back ∧
    (scheme = "http://" ∨ scheme = "https://") ∧
    front ≠ "" ∧ allChars (inClass false hostClass) front = true ∧
    ∃ c back', back = String c back' ∧ inClass false tldClass c = true.
Proof.
  apply validate_accepts in Haccepted as (_ & _ & Hvalid).
  apply isValidURL_facts in Hvalid as (_ & Hpattern & _).
  by apply urlValidationRegex_dot.
Qed.

Example localhost_refused (URL_ctor : string → bool) :
  validateAndNormalizeURL URL_ctor "http://localhost/a.b" = inr InvalidFormat.
Proof.
  rewrite validate_nonempty by (vm_compute; discriminate).
  change (normalizeURL (trim "http://localhost/a.b")) with "http://localhost/a.b".
  unfold isValidURL.
  replace (test false urlValidationRegex "http://localhost/a.b") with false
    by (vm_compute; reflexivity).
  by destruct (URL_ctor "http://localhost/a.b").
Qed.

Lemma validate_dot_witness :
  ∃ scheme front back, "https://example.com" = scheme +:+ front +:+ "." +:+ back.
Proof.
  assert (validateAndNormalizeURL sampleURL "example.com" = inl "https://example.com")
    as H by (vm_compute; reflexivity).
  destruct (validate_dot sampleURL _ _ H) as (scheme & front & back & Heq & _).
  exists scheme, front, back. exact Heq.
Defined.

(** * [truncateUrl] *)

Lemma length_substring0 (s : string) :
  ∀ n, String.length (String.substring 0 n s) = Nat.min n (String.length s).
Proof.
  induction s as [|c s IH]; intros [|n]; cbn [String.substring String.length]; try done.
  by rewrite IH.
Qed.

Lemma lengthZ_substring0 (n : Z) (s : string) :
  lengthZ (substring0 n s) = Z.max 0 (Z.min n (lengthZ s)).
Proof. unfold lengthZ, substring0. rewrite length_substring0. lia. Qed.

Lemma lengthZ_append (s t : string) : lengthZ (s +:+ t) = (lengthZ s + lengthZ t)%Z.
Proof. unfold lengthZ. rewrite length_append. lia. Qed.

(** X14: [truncateUrl] does not always keep to [maxLength].  For
    [maxLength] of 3 or more the result has at most [maxLength]
    characters, or exactly [maxLength + 5], or is the URL itself, longer
    than [maxLength].  The second case is the one where the path is cut:
    the host has fewer than [maxLength - 10] characters and the path and
    query more than [maxLength - 6] minus those of the host. *)
Theorem truncateUrl_length (URL_parse : string → option urlParts)
    (url : string) (maxLength : Z) (Hmax : (3 ≤ maxLength)%Z) :
  let result := truncateUrl URL_parse url maxLength in
  ((lengthZ result ≤ maxLength)%Z ∨
   (lengthZ result = maxLength + 5)%Z ∨
   (result = url ∧ (maxLength < lengthZ url)%Z)) ∧
  ((lengthZ url ≤ maxLength)%Z → result = url) ∧
  ((maxLength < lengthZ url)%Z → URL_parse url = None →
   lengthZ result = maxLength) ∧
  (∀ urlObj,
     (maxLength < lengthZ url)%Z → URL_parse url = Some urlObj →
     (lengthZ (hostname urlObj) + 10 < maxLength)%Z →
     (maxLength - lengthZ (hostname urlObj) - 6 <
        lengthZ (pathname urlObj +:+ search urlObj))%Z →
     lengthZ result = (maxLength + 5)%Z).
Proof.
  cbn zeta. unfold truncateUrl.
  destruct (lengthZ url <=? maxLength)%Z eqn:Hfits.
  { apply Z.leb_le in Hfits. split; [by left|]. split; [done|].
    split; [lia|]. intros; lia. }
  apply Z.leb_gt in Hfits.
  destruct (URL_parse url) as [urlObj|].
  - destruct (maxLength <=? lengthZ (hostname urlObj) + 10)%Z eqn:Hhost.
    + apply Z.leb_le in Hhost. split; [|split; [lia|split; [done|]]].
      * left. rewrite lengthZ_append, lengthZ_substring0.
        change (lengthZ "...") with 3%Z. lia.
      * intros ? _ [= <-]. lia.
    + apply Z.leb_gt in Hhost.
      destruct (_ <? _)%Z eqn:Hpath.
      * apply Z.ltb_lt in Hpath.
        assert (lengthZ ("https://" +:+ hostname urlObj +:+
                  substring0 (maxLength - lengthZ (hostname urlObj) - 6)
                    (pathname urlObj +:+ search urlObj) +:+ "...")
                = (maxLength + 5)%Z) as Hlen.
        { rewrite !lengthZ_append, lengthZ_substring0.
          change (lengthZ "...") with 3%Z. change (lengthZ "https://") with 8%Z. lia. }
        split; [by right; left|]. split; [lia|]. split; [done|]. done.
      * apply Z.ltb_ge in Hpath. split; [by right; right|].
        split; [lia|]. split; [done|]. intros ? _ [= <-]. lia.
  - assert (lengthZ (substring0 (maxLength - 3) url +:+ "...") = maxLength) as Hlen.
    { rewrite lengthZ_append, lengthZ_substring0. change (lengthZ "...") with 3%Z. lia. }
    split; [left; lia|]. split; [lia|]. split; [done|]. done.
Qed.

Lemma truncateUrl_length_witness :
  lengthZ (truncateUrl
    (λ _, Some (UrlParts "example.com" "/questions/742013/how-do-i-create-a-url-shortener" ""))
    "https://example.com/questions/742013/how-do-i-create-a-url-shortener" 50)
  = 55%Z.
Proof.
  refine (proj2 (proj2 (proj2 (truncateUrl_length _ _ 50 _))) _ _ eq_refl _ _);
    vm_compute; congruence.
Defined.
